(** * core-js-101, objects tasks: Rectangle, JSON helpers and the CSS selector builder

    The repository holds two versions of the same task file:
    [src/src/05-objects-tasks.js] (module [Tasks05] below) and
    [src/unnamed/part_000] (module [Part000]).  Both are embedded; what they
    share textually (the fragment methods of [SelectorBuilder], which only
    touch the builder's [Map]) is embedded once, in module [Fragment]. *)

From Stdlib Require Import ZArith String Ascii List Bool Lia PrimFloat.
From Stdlib Require Import DecimalString DecimalPos DecimalN DecimalZ.
From Stdlib Require Import Sorted.
From stdpp Require Import base list strings.

Local Open Scope Z_scope.
Local Open Scope nat_scope.
Local Open Scope string_scope.
Local Open Scope list_scope.
Local Open Scope stdpp_scope.

(** ** JavaScript completions: a call returns normally or throws, and the
    mutations made before a throw stay in the state. *)

Inductive exn : Type :=
| Error (message : string)   (* [new Error(message)] *)
| TypeError                  (* raised by the engine: call on [undefined], not a function *)
| SyntaxError.               (* raised by [JSON.parse] *)

Inductive completion (A : Type) : Type :=
| Normal (a : A)
| Throw (e : exn).
Arguments Normal {A} a.
Arguments Throw {A} e.

Definition Eff (S A : Type) : Type := S -> completion A * S.

#[global] Instance Eff_ret {S} : MRet (Eff S) := fun A a s => (Normal a, s).
#[global] Instance Eff_bind {S} : MBind (Eff S) :=
  fun A B f m s =>
    match m s with
    | (Normal a, s') => f a s'
    | (Throw e, s') => (Throw e, s')
    end.

Definition throw {S A} (e : exn) : Eff S A := fun s => (Throw e, s).
Definition get_state {S} : Eff S S := fun s => (Normal s, s).
Definition put_state {S} (s : S) : Eff S unit := fun _ => (Normal tt, s).

(** ** The built-in [Map], for string keys: entries in insertion order.
    [set] on a present key overwrites the value where the entry stands, on an
    absent key it appends the entry.  The sources never call [delete]. *)

Module JsMap.
Definition t (V : Type) : Type := list (string * V).

Section Methods.
Context {V : Type}.

Definition empty : t V := [].

Fixpoint get (map : t V) (key : string) : option V :=
  match map with
  | [] => None
  | (k, v) :: rest => if String.eqb k key then Some v else get rest key
  end.

Definition has (map : t V) (key : string) : bool :=
  match get map key with Some _ => true | None => false end.

Fixpoint set (map : t V) (key : string) (value : V) : t V :=
  match map with
  | [] => [(key, value)]
  | (k, v) :: rest =>
      if String.eqb k key then (k, value) :: rest
      else (k, v) :: set rest key value
  end.

(** The order of [values()] and of [forEach]. *)
Definition values (map : t V) : list V := List.map snd map.
End Methods.
End JsMap.

(** ** The fragment methods of [SelectorBuilder]

    [element], [id], [class], [attr], [pseudoClass], [pseudoElement] and the
    checks they call read and write one field of [this], the Map ([this.map]
    in 05-objects-tasks.js, [this._map] in part_000); that Map is the state
    here.  [return this] is the handle the caller already holds. *)

(** A Map value is a string (TAG, ID, PSEUDO-ELEMENT) or an array of strings. *)
Inductive MapValue : Type :=
| Str (s : string)
| Arr (elements : list string).

Module ELEMENTS.
Definition TAG : string := "TAG".
Definition ID : string := "ID".
Definition CLASS : string := "CLASS".
Definition ATTRIBUTE : string := "ATTRIBUTE".
Definition PSEUDO_CLASS : string := "PSEUDO-CLASS".
Definition PSEUDO_ELEMENT : string := "PSEUDO-ELEMENT".
End ELEMENTS.

Module Fragment.
Definition fragments : Type := JsMap.t MapValue.

Definition duplicate_message : string :=
  "Element, id and pseudo-element should not occur more then one time inside the selector".
Definition order_message : string :=
  "Selector parts should be arranged in the following order: element, id, class, attribute, pseudo-class, pseudo-element".

(** The two errors of the specification are [Error]s told apart by message. *)
Definition DuplicateFragmentError : exn := Error duplicate_message.
Definition OrderViolationError : exn := Error order_message.

Definition elementsPathOrder : list string :=
  [ELEMENTS.TAG; ELEMENTS.ID; ELEMENTS.CLASS; ELEMENTS.ATTRIBUTE;
   ELEMENTS.PSEUDO_CLASS; ELEMENTS.PSEUDO_ELEMENT].

(** [Array.prototype.indexOf]: position of the first match, -1 if none. *)
Fixpoint indexOf_from (l : list string) (x : string) (i : Z) : Z :=
  match l with
  | [] => (-1)%Z
  | y :: rest => if String.eqb y x then i else indexOf_from rest x (i + 1)%Z
  end.
Definition indexOf (l : list string) (x : string) : Z := indexOf_from l x 0%Z.

Definition checkPseudoElementExist : Eff fragments unit :=
  map ← get_state;
  if JsMap.has map ELEMENTS.PSEUDO_ELEMENT then throw (Error duplicate_message)
  else mret tt.

Definition checkIdExist : Eff fragments unit :=
  map ← get_state;
  if JsMap.has map ELEMENTS.ID then throw (Error duplicate_message)
  else mret tt.

Definition checkElementExist : Eff fragments unit :=
  map ← get_state;
  if JsMap.has map ELEMENTS.TAG then throw (Error duplicate_message)
  else mret tt.

(** part_000 only; 05-objects-tasks.js throws in place. *)
Definition throwPathException : Eff fragments unit :=
  throw (Error order_message).

(** [for (i = index + 1; i < length; i += 1) if (map.has(order[i])) throw]:
    the loop body has no effect but the throw, so the loop throws exactly
    when some entry of the order from position [index + 1] on is a key. *)
Definition checkElementOrder (element : string) : Eff fragments unit :=
  map ← get_state;
  let index := indexOf elementsPathOrder element in
  if existsb (JsMap.has map) (drop (Z.to_nat (index + 1)) elementsPathOrder)
  then throwPathException
  else mret tt.

(** [elements.push(value)] extends the array the Map entry refers to; the
    array is reachable from that entry only.  A string entry under [key]
    (no method stores one under a repeatable key) is falsy when empty and
    has no [push] otherwise. *)
Definition setArrayValueToMap (key : string) (value : string) : Eff fragments unit :=
  map ← get_state;
  match JsMap.get map key with
  | Some (Arr elements) => put_state (JsMap.set map key (Arr (elements ++ [value])))
  | Some (Str "") | None => put_state (JsMap.set map key (Arr [value]))
  | Some (Str _) => throw TypeError
  end.

Definition map_set (key : string) (value : MapValue) : Eff fragments unit :=
  map ← get_state; put_state (JsMap.set map key value).

Definition element (value : string) : Eff fragments unit :=
  checkElementExist;;
  checkElementOrder ELEMENTS.TAG;;
  map_set ELEMENTS.TAG (Str value).

Definition id (value : string) : Eff fragments unit :=
  checkIdExist;;
  checkElementOrder ELEMENTS.ID;;
  map_set ELEMENTS.ID (Str ("#" +:+ value)).

Definition class (value : string) : Eff fragments unit :=
  checkElementOrder ELEMENTS.CLASS;;
  setArrayValueToMap ELEMENTS.CLASS ("." +:+ value).

Definition attr (value : string) : Eff fragments unit :=
  checkElementOrder ELEMENTS.ATTRIBUTE;;
  setArrayValueToMap ELEMENTS.ATTRIBUTE ("[" +:+ value +:+ "]").

Definition pseudoClass (value : string) : Eff fragments unit :=
  checkElementOrder ELEMENTS.PSEUDO_CLASS;;
  setArrayValueToMap ELEMENTS.PSEUDO_CLASS (":" +:+ value).

Definition pseudoElement (value : string) : Eff fragments unit :=
  checkPseudoElementExist;;
  checkElementOrder ELEMENTS.PSEUDO_ELEMENT;;
  map_set ELEMENTS.PSEUDO_ELEMENT (Str ("::" +:+ value)).

(** [value.join('')] *)
Definition join (elements : list string) : string :=
  fold_right String.append "" elements.

(** The Map branch of [stringify]: [result += Array.isArray(value) ?
    value.join('') : value] over the values in Map order. *)
Definition stringify (map : fragments) : string :=
  fold_left
    (fun result value =>
       result +:+ match value with Arr elements => join elements | Str s => s end)
    (JsMap.values map) "".
End Fragment.

(** ** Vocabulary of the specification: fragment kinds

    The specification names six kinds in a fixed order; the sources have the
    six [ELEMENTS] keys and one method per kind.  [Kind] indexes both. *)

Inductive Kind : Type := Type_ | Id | Class | Attribute | PseudoClass | PseudoElement.

Module Kind.
Definition all : list Kind := [Type_; Id; Class; Attribute; PseudoClass; PseudoElement].

Definition rank (K : Kind) : nat :=
  match K with
  | Type_ => 0 | Id => 1 | Class => 2 | Attribute => 3 | PseudoClass => 4
  | PseudoElement => 5
  end.

Definition eqb (K K' : Kind) : bool := Nat.eqb (rank K) (rank K').

(** Class, Attribute and PseudoClass may repeat. *)
Definition repeatable (K : Kind) : bool :=
  match K with Class | Attribute | PseudoClass => true | _ => false end.

Definition key (K : Kind) : string :=
  match K with
  | Type_ => ELEMENTS.TAG
  | Id => ELEMENTS.ID
  | Class => ELEMENTS.CLASS
  | Attribute => ELEMENTS.ATTRIBUTE
  | PseudoClass => ELEMENTS.PSEUDO_CLASS
  | PseudoElement => ELEMENTS.PSEUDO_ELEMENT
  end.

(** The method that inserts a fragment of the kind. *)
Definition insert (K : Kind) (text : string) : Eff Fragment.fragments unit :=
  match K with
  | Type_ => Fragment.element text
  | Id => Fragment.id text
  | Class => Fragment.class text
  | Attribute => Fragment.attr text
  | PseudoClass => Fragment.pseudoClass text
  | PseudoElement => Fragment.pseudoElement text
  end.

(** The sigil-prefixed text of the specification. *)
Definition sigil (K : Kind) (text : string) : string :=
  match K with
  | Type_ => text
  | Id => "#" +:+ text
  | Class => "." +:+ text
  | Attribute => "[" +:+ text +:+ "]"
  | PseudoClass => ":" +:+ text
  | PseudoElement => "::" +:+ text
  end.
End Kind.

(** A sequence of insertions on one builder, run in order; it stops at the
    first throw. *)
Fixpoint insert_all (ops : list (Kind * string)) : Eff Fragment.fragments unit :=
  match ops with
  | [] => mret tt
  | (K, text) :: rest => Kind.insert K text;; insert_all rest
  end.

(** The texts inserted with kind [K], in insertion order. *)
Definition texts_of (K : Kind) (ops : list (Kind * string)) : list string :=
  List.map snd (List.filter (fun op => Kind.eqb (fst op) K) ops).

(** The rendering the specification describes: kind by kind in the fixed
    order, the fragments of a kind in insertion order, nothing in between. *)
Definition expected_rendering (ops : list (Kind * string)) : string :=
  Fragment.join
    (List.flat_map (fun K => List.map (Kind.sigil K) (texts_of K ops)) Kind.all).

(** The orderings the specification calls valid, Type?, Id?, Class*,
    Attribute*, PseudoClass*, PseudoElement?: kinds never decrease, and only
    a repeatable kind follows itself. *)
Fixpoint valid_order (ops : list (Kind * string)) : bool :=
  match ops with
  | [] => true
  | (K, _) :: rest =>
      match rest with
      | [] => true
      | (K', _) :: _ =>
          (Nat.ltb (Kind.rank K) (Kind.rank K') || (Kind.eqb K K' && Kind.repeatable K))
          && valid_order rest
      end
  end.

(** ** Objects on the heap

    Builders are objects with identity: [combine] stores references to its
    arguments, and a method reached through one reference changes what every
    other reference sees.  A heap is the list of the objects allocated so
    far, a reference is a position in it, [new] appends.  Calling a method
    through a reference that holds no object of the right class is a
    [TypeError]. *)

Abbreviation loc := nat.

(** [stringify] recurses through references, so it takes fuel; [None] is
    fuel exhausted, never a JavaScript outcome. *)
Definition Run (S A : Type) : Type := S -> option (completion A * S).

#[global] Instance Run_ret {S} : MRet (Run S) := fun A a s => Some (Normal a, s).
#[global] Instance Run_bind {S} : MBind (Run S) :=
  fun A B f m s =>
    match m s with
    | Some (Normal a, s') => f a s'
    | Some (Throw e, s') => Some (Throw e, s')
    | None => None
    end.

Definition lift {S A} (m : Eff S A) : Run S A := fun s => Some (m s).
Definition out_of_fuel {S A} : Run S A := fun _ => None.

(** *** src/src/05-objects-tasks.js: one class for both node shapes *)

Module Tasks05.
Record SelectorBuilder : Type := mkSelectorBuilder {
  map : Fragment.fragments;
  combineSelector : bool;
  selector1 : option loc;       (* undefined until [combine] *)
  combinator : option string;
  selector2 : option loc
}.

Abbreviation heap := (list SelectorBuilder).

Definition set_map (m : Fragment.fragments) (o : SelectorBuilder) : SelectorBuilder :=
  mkSelectorBuilder m (combineSelector o) (selector1 o) (combinator o) (selector2 o).
Definition set_combineSelector (b : bool) (o : SelectorBuilder) : SelectorBuilder :=
  mkSelectorBuilder (map o) b (selector1 o) (combinator o) (selector2 o).

(** [new SelectorBuilder()]; [elementsPathOrder] is the constant
    [Fragment.elementsPathOrder], no method assigns it. *)
Definition new : Eff heap loc :=
  fun h => (Normal (length h), h ++ [mkSelectorBuilder JsMap.empty false None None None]).

Definition read (this : loc) : Eff heap SelectorBuilder :=
  fun h => match h !! this with
           | Some o => (Normal o, h)
           | None => (Throw TypeError, h)
           end.
Definition write (this : loc) (o : SelectorBuilder) : Eff heap unit :=
  fun h => (Normal tt, <[this := o]> h).

(** A fragment method, run on the Map of [this]. *)
Definition on_map {A} (this : loc) (method : Eff Fragment.fragments A) : Eff heap A :=
  fun h => match h !! this with
           | Some o => let (r, m) := method (map o) in (r, <[this := set_map m o]> h)
           | None => (Throw TypeError, h)
           end.

Definition element (this : loc) (value : string) : Eff heap loc :=
  on_map this (Fragment.element value);; mret this.
Definition id (this : loc) (value : string) : Eff heap loc :=
  on_map this (Fragment.id value);; mret this.
Definition class (this : loc) (value : string) : Eff heap loc :=
  on_map this (Fragment.class value);; mret this.
Definition attr (this : loc) (value : string) : Eff heap loc :=
  on_map this (Fragment.attr value);; mret this.
Definition pseudoClass (this : loc) (value : string) : Eff heap loc :=
  on_map this (Fragment.pseudoClass value);; mret this.
Definition pseudoElement (this : loc) (value : string) : Eff heap loc :=
  on_map this (Fragment.pseudoElement value);; mret this.

Definition combine (this : loc) (selector1' : loc) (combinator' : string)
    (selector2' : loc) : Eff heap loc :=
  o ← read this;
  write this (mkSelectorBuilder (map o) true (Some selector1') (Some combinator')
                (Some selector2'));;
  mret this.

(** A method call on a field that may be [undefined]. *)
Definition target (field : option loc) : Run heap loc :=
  match field with
  | Some l => mret l
  | None => lift (throw TypeError)
  end.

(** The template literal converts an [undefined] combinator to text. *)
Definition text_of (field : option string) : string :=
  match field with Some s => s | None => "undefined" end.

(** The flag is cleared before the children are rendered; the template
    literal evaluates [this.selector1.stringify()], [this.combinator],
    [this.selector2.stringify()] from left to right. *)
Fixpoint stringify (fuel : nat) (this : loc) : Run heap string :=
  match fuel with
  | O => out_of_fuel
  | S fuel =>
      o ← lift (read this);
      if combineSelector o then
        lift (write this (set_combineSelector false o));;
        s1 ← target (selector1 o);
        left ← stringify fuel s1;
        o' ← lift (read this);
        s2 ← target (selector2 o');
        right ← stringify fuel s2;
        mret (left +:+ " " +:+ text_of (combinator o') +:+ " " +:+ right)
      else
        mret (Fragment.stringify (map o))
  end.

(** The facade object [cssSelectorBuilder]. *)
Module cssSelectorBuilder.
Definition element (value : string) : Eff heap loc :=
  this ← new; Tasks05.element this value.
Definition id (value : string) : Eff heap loc :=
  this ← new; Tasks05.id this value.
Definition class (value : string) : Eff heap loc :=
  this ← new; Tasks05.class this value.
Definition attr (value : string) : Eff heap loc :=
  this ← new; Tasks05.attr this value.
Definition pseudoClass (value : string) : Eff heap loc :=
  this ← new; Tasks05.pseudoClass this value.
Definition pseudoElement (value : string) : Eff heap loc :=
  this ← new; Tasks05.pseudoElement this value.
Definition combine (selector1' : loc) (combinator' : string) (selector2' : loc)
    : Eff heap loc :=
  this ← new; Tasks05.combine this selector1' combinator' selector2'.
End cssSelectorBuilder.
End Tasks05.

(** *** src/unnamed/part_000: [SelectorBuilder] and [CombineSelectorBuilder] *)

Module Part000.
Inductive object : Type :=
| SelectorBuilder (_map : Fragment.fragments)
| CombineSelectorBuilder (_selector1 : loc) (_combinator : string) (_selector2 : loc).

Abbreviation heap := (list object).

(** [new SelectorBuilder()] and [new CombineSelectorBuilder(s1, c, s2)]. *)
Definition new_SelectorBuilder : Eff heap loc :=
  fun h => (Normal (length h), h ++ [SelectorBuilder JsMap.empty]).
Definition new_CombineSelectorBuilder (selector1 : loc) (combinator : string)
    (selector2 : loc) : Eff heap loc :=
  fun h => (Normal (length h), h ++ [CombineSelectorBuilder selector1 combinator selector2]).

Definition read (this : loc) : Eff heap object :=
  fun h => match h !! this with
           | Some o => (Normal o, h)
           | None => (Throw TypeError, h)
           end.

(** A fragment method, run on the Map of [this]; a [CombineSelectorBuilder]
    has no such method. *)
Definition on_map {A} (this : loc) (method : Eff Fragment.fragments A) : Eff heap A :=
  fun h => match h !! this with
           | Some (SelectorBuilder _map) =>
               let (r, m) := method _map in (r, <[this := SelectorBuilder m]> h)
           | Some (CombineSelectorBuilder _ _ _) | None => (Throw TypeError, h)
           end.

Definition element (this : loc) (value : string) : Eff heap loc :=
  on_map this (Fragment.element value);; mret this.
Definition id (this : loc) (value : string) : Eff heap loc :=
  on_map this (Fragment.id value);; mret this.
Definition class (this : loc) (value : string) : Eff heap loc :=
  on_map this (Fragment.class value);; mret this.
Definition attr (this : loc) (value : string) : Eff heap loc :=
  on_map this (Fragment.attr value);; mret this.
Definition pseudoClass (this : loc) (value : string) : Eff heap loc :=
  on_map this (Fragment.pseudoClass value);; mret this.
Definition pseudoElement (this : loc) (value : string) : Eff heap loc :=
  on_map this (Fragment.pseudoElement value);; mret this.

(** Both classes have [stringify]; the call dispatches on the class of the
    object.  Neither body assigns anything. *)
Fixpoint stringify (fuel : nat) (this : loc) : Run heap string :=
  match fuel with
  | O => out_of_fuel
  | S fuel =>
      o ← lift (read this);
      match o with
      | SelectorBuilder _map => mret (Fragment.stringify _map)
      | CombineSelectorBuilder _selector1 _combinator _selector2 =>
          left ← stringify fuel _selector1;
          right ← stringify fuel _selector2;
          mret (left +:+ " " +:+ _combinator +:+ " " +:+ right)
      end
  end.

Module cssSelectorBuilder.
Definition element (value : string) : Eff heap loc :=
  this ← new_SelectorBuilder; Part000.element this value.
Definition id (value : string) : Eff heap loc :=
  this ← new_SelectorBuilder; Part000.id this value.
Definition class (value : string) : Eff heap loc :=
  this ← new_SelectorBuilder; Part000.class this value.
Definition attr (value : string) : Eff heap loc :=
  this ← new_SelectorBuilder; Part000.attr this value.
Definition pseudoClass (value : string) : Eff heap loc :=
  this ← new_SelectorBuilder; Part000.pseudoClass this value.
Definition pseudoElement (value : string) : Eff heap loc :=
  this ← new_SelectorBuilder; Part000.pseudoElement this value.
Definition combine (selector1 : loc) (combinator : string) (selector2 : loc)
    : Eff heap loc :=
  new_CombineSelectorBuilder selector1 combinator selector2.
End cssSelectorBuilder.
End Part000.

(** ** Invariant of a builder's Map

    The kinds that come strictly after [K]: what [checkElementOrder] scans. *)
Definition later_kinds (K : Kind) : list Kind :=
  List.filter (fun K' => Nat.ltb (Kind.rank K) (Kind.rank K')) Kind.all.

(** The Map of a builder is determined by the texts inserted per kind: one
    entry per kind that has texts, the entries in kind order. *)
Definition entry (K : Kind) (texts : list string) : Fragment.fragments :=
  match texts with
  | [] => []
  | text :: _ =>
      [(Kind.key K,
        if Kind.repeatable K then Arr (List.map (Kind.sigil K) texts)
        else Str (Kind.sigil K text))]
  end.

Definition map_of (texts : Kind -> list string) : Fragment.fragments :=
  List.flat_map (fun K => entry K (texts K)) Kind.all.

Definition add_text (texts : Kind -> list string) (K : Kind) (text : string)
    : Kind -> list string :=
  fun K' => if Kind.eqb K K' then texts K' ++ [text] else texts K'.

Definition singletons (texts : Kind -> list string) : Prop :=
  forall K, Kind.repeatable K = false -> length (texts K) <= 1.

Definition add_all (texts : Kind -> list string) (ops : list (Kind * string))
    : Kind -> list string :=
  fold_left (fun g op => add_text g (fst op) (snd op)) ops texts.

(** What [stringify] appends for one Map value. *)
Definition rendered (value : MapValue) : string :=
  match value with Arr elements => Fragment.join elements | Str s => s end.

(** ** The public surface, the same in both files

    Clients create nodes through [cssSelectorBuilder], chain fragment methods
    on the node handle they got back, and call [stringify]. *)

Inductive source : Type := Tasks05_js | Part000_js.

Record Implementation : Type := {
  heap : Type;
  (** The heap before anything is allocated. *)
  no_objects : heap;
  (** [new SelectorBuilder()] *)
  new_builder : Eff heap loc;
  (** [node.element(text)], [node.id(text)], ... by kind *)
  method : Kind -> loc -> string -> Eff heap loc;
  (** [cssSelectorBuilder.element(text)], ... by kind *)
  create : Kind -> string -> Eff heap loc;
  (** [cssSelectorBuilder.combine(selector1, combinator, selector2)] *)
  combine : loc -> string -> loc -> Eff heap loc;
  (** [node.stringify()] *)
  stringify : nat -> loc -> Run heap string;
  (** The Map of the builder a reference points to. *)
  fragments_at : heap -> loc -> option Fragment.fragments
}.

Definition tasks05 : Implementation := {|
  heap := Tasks05.heap;
  no_objects := [];
  new_builder := Tasks05.new;
  method K :=
    match K with
    | Type_ => Tasks05.element
    | Id => Tasks05.id
    | Class => Tasks05.class
    | Attribute => Tasks05.attr
    | PseudoClass => Tasks05.pseudoClass
    | PseudoElement => Tasks05.pseudoElement
    end;
  create K :=
    match K with
    | Type_ => Tasks05.cssSelectorBuilder.element
    | Id => Tasks05.cssSelectorBuilder.id
    | Class => Tasks05.cssSelectorBuilder.class
    | Attribute => Tasks05.cssSelectorBuilder.attr
    | PseudoClass => Tasks05.cssSelectorBuilder.pseudoClass
    | PseudoElement => Tasks05.cssSelectorBuilder.pseudoElement
    end;
  combine := Tasks05.cssSelectorBuilder.combine;
  stringify := Tasks05.stringify;
  fragments_at h this := Tasks05.map <$> h !! this
|}.

Definition part000 : Implementation := {|
  heap := Part000.heap;
  no_objects := [];
  new_builder := Part000.new_SelectorBuilder;
  method K :=
    match K with
    | Type_ => Part000.element
    | Id => Part000.id
    | Class => Part000.class
    | Attribute => Part000.attr
    | PseudoClass => Part000.pseudoClass
    | PseudoElement => Part000.pseudoElement
    end;
  create K :=
    match K with
    | Type_ => Part000.cssSelectorBuilder.element
    | Id => Part000.cssSelectorBuilder.id
    | Class => Part000.cssSelectorBuilder.class
    | Attribute => Part000.cssSelectorBuilder.attr
    | PseudoClass => Part000.cssSelectorBuilder.pseudoClass
    | PseudoElement => Part000.cssSelectorBuilder.pseudoElement
    end;
  combine := Part000.cssSelectorBuilder.combine;
  stringify := Part000.stringify;
  fragments_at h this :=
    match h !! this with
    | Some (Part000.SelectorBuilder _map) => Some _map
    | _ => None
    end
|}.

Definition implementation (src : source) : Implementation :=
  match src with Tasks05_js => tasks05 | Part000_js => part000 end.

(** Chained calls: each method returns the node, the next call is made on
    what was returned. *)
Fixpoint chain (I : Implementation) (this : loc) (ops : list (Kind * string))
    : Eff (heap I) loc :=
  match ops with
  | [] => mret this
  | (K, text) :: rest => this' ← method I K this text; chain I this' rest
  end.

(** A fresh builder and a sequence of insertions on it.  For a sequence
    that is not empty this is the facade call for the first insertion,
    followed by the chained calls for the others. *)
Definition build (I : Implementation) (ops : list (Kind * string)) : Eff (heap I) loc :=
  this ← new_builder I; chain I this ops.

(** *** Client programs and what a client observes *)

Inductive call : Type :=
| Create (K : Kind) (text : string)
| Chain (node : loc) (K : Kind) (text : string)
| Combine (selector1 : loc) (combinator : string) (selector2 : loc)
| Stringify (node : loc).

Inductive observation : Type :=
| Returned_node (node : loc)
| Returned_string (s : string)
| Raised (e : exn).

Definition observe_node (r : completion loc) : observation :=
  match r with Normal node => Returned_node node | Throw e => Raised e end.
Definition observe_string (r : completion string) : observation :=
  match r with Normal s => Returned_string s | Throw e => Raised e end.

(** One call; the caller catches what is thrown and goes on. *)
Definition perform (I : Implementation) (fuel : nat) (c : call) (h : heap I)
    : option (observation * heap I) :=
  match c with
  | Create K text => let (r, h') := create I K text h in Some (observe_node r, h')
  | Chain node K text => let (r, h') := method I K node text h in Some (observe_node r, h')
  | Combine selector1 combinator selector2 =>
      let (r, h') := combine I selector1 combinator selector2 h in
      Some (observe_node r, h')
  | Stringify node =>
      match stringify I fuel node h with
      | Some (r, h') => Some (observe_string r, h')
      | None => None
      end
  end.

Fixpoint observations (I : Implementation) (fuel : nat) (program : list call) (h : heap I)
    : option (list observation) :=
  match program with
  | [] => Some []
  | c :: rest =>
      match perform I fuel c h with
      | Some (o, h') =>
          match observations I fuel rest h' with
          | Some os => Some (o :: os)
          | None => None
          end
      | None => None
      end
  end.

(** The two sides of the equation for combinations, as a client evaluates
    them: [combine(s1, c, s2).stringify()], and
    [s1.stringify() + ' ' + c + ' ' + s2.stringify()], operands from left to
    right. *)
Definition combined_rendering (I : Implementation) (fuel : nat) (s1 : loc) (c : string)
    (s2 : loc) : Run (heap I) string :=
  this ← lift (combine I s1 c s2); stringify I (S fuel) this.

Definition joined_renderings (I : Implementation) (fuel : nat) (s1 : loc) (c : string)
    (s2 : loc) : Run (heap I) string :=
  a ← stringify I fuel s1; b ← stringify I fuel s2; mret (a +:+ " " +:+ c +:+ " " +:+ b).

(** The reference points to a builder that was never combined and whose
    Map is [map]. *)
Definition simple_at (src : source) : heap (implementation src) -> loc -> Fragment.fragments -> Prop :=
  match src with
  | Tasks05_js => fun h this map =>
      exists o, h !! this = Some o /\ Tasks05.map o = map /\ Tasks05.combineSelector o = false
  | Part000_js => fun h this map => h !! this = Some (Part000.SelectorBuilder map)
  end.

(** The number of objects whose [combineSelector] is set: what bounds the
    depth of a rendering in 05-objects-tasks.js. *)
Definition combined (h : Tasks05.heap) : nat :=
  length (List.filter Tasks05.combineSelector h).

(** In part_000 a [CombineSelectorBuilder] gets its children at
    construction, so they were allocated before it. *)
Definition children_before (h : Part000.heap) : Prop :=
  forall this s1 c s2,
    h !! this = Some (Part000.CombineSelectorBuilder s1 c s2) -> s1 < this /\ s2 < this.

(** *** Selector expressions

    What client code writes, as in the example of the header comment: a
    facade call with its chained calls, or [cssSelectorBuilder.combine]
    applied to two such expressions.  The arguments of a call are evaluated
    from left to right, before the call. *)
Inductive selector : Type :=
| Simple (K : Kind) (text : string) (rest : list (Kind * string))
| Combined (selector1 : selector) (combinator : string) (selector2 : selector).

Fixpoint construct (I : Implementation) (s : selector) : Eff (heap I) loc :=
  match s with
  | Simple K text rest => this ← create I K text; chain I this rest
  | Combined selector1 combinator selector2 =>
      node1 ← construct I selector1;
      node2 ← construct I selector2;
      combine I node1 combinator node2
  end.

(** The text of a selector expression: the fragments of a simple part kind
    by kind, a combination as left text, space, combinator, space, right
    text. *)
Fixpoint rendering (s : selector) : string :=
  match s with
  | Simple K text rest => expected_rendering ((K, text) :: rest)
  | Combined selector1 combinator selector2 =>
      rendering selector1 +:+ " " +:+ combinator +:+ " " +:+ rendering selector2
  end.

Fixpoint depth (s : selector) : nat :=
  match s with
  | Simple _ _ _ => 1
  | Combined selector1 _ selector2 => S (Nat.max (depth selector1) (depth selector2))
  end.

(** The equation of a combination as a client checks it, for the nodes
    [A] and [B] of two expressions:
    [combine(A, c, B).stringify() === A.stringify() + ' ' + c + ' ' + B.stringify()].
    The left side is evaluated first, the right side after it and on the
    same two objects. *)
Definition equation_sides (I : Implementation) (fuel : nat) (s1 : selector) (c : string)
    (s2 : selector) : Run (heap I) (string * string) :=
  A ← lift (construct I s1);
  B ← lift (construct I s2);
  left ← combined_rendering I fuel A c B;
  right ← joined_renderings I fuel A c B;
  mret (left, right).

(** Every simple part of the expression is in a valid order. *)
Fixpoint well_ordered (s : selector) : bool :=
  match s with
  | Simple K text rest => valid_order ((K, text) :: rest)
  | Combined selector1 _ selector2 => well_ordered selector1 && well_ordered selector2
  end.

(** *** Heaps and programs, for the statements below *)

(** The number of objects of a heap, and that the object at a reference is
    the same in two heaps, for either file. *)
Definition objects (src : source) : heap (implementation src) -> nat :=
  match src with
  | Tasks05_js => fun h : Tasks05.heap => length h
  | Part000_js => fun h : Part000.heap => length h
  end.

Definition same_at (src : source) (l : loc)
    : heap (implementation src) -> heap (implementation src) -> Prop :=
  match src with
  | Tasks05_js => fun h h' : Tasks05.heap => h' !! l = h !! l
  | Part000_js => fun h h' : Part000.heap => h' !! l = h !! l
  end.

(** A client holds references to objects that exist: every reference a
    call of the program passes is below the number of objects allocated
    when the call is made.  [Create] and [Combine] allocate one object. *)
Fixpoint scoped (allocated : nat) (program : list call) : bool :=
  match program with
  | [] => true
  | Create _ _ :: rest => scoped (S allocated) rest
  | Chain node _ _ :: rest => Nat.ltb node allocated && scoped allocated rest
  | Combine selector1 _ selector2 :: rest =>
      Nat.ltb selector1 allocated && Nat.ltb selector2 allocated && scoped (S allocated) rest
  | Stringify node :: rest => Nat.ltb node allocated && scoped allocated rest
  end.

(** Programs that call the facade's fragment methods, chained methods and
    [stringify], and never [combine]. *)
Definition no_combine (program : list call) : bool :=
  forallb (fun c => match c with Combine _ _ _ => false | _ => true end) program.

(** The heaps of the two files hold the same builders, none combined. *)
Definition same_builders (h1 : Tasks05.heap) (h2 : Part000.heap) : Prop :=
  Forall2
    (fun o1 o2 =>
       o2 = Part000.SelectorBuilder (Tasks05.map o1) /\ Tasks05.combineSelector o1 = false)
    h1 h2.

(** What [stringify] of 05-objects-tasks.js may do to an object: the Map
    stays, and the flag is set afterwards only if it was set before. *)
Definition flag_cleared_at_most (o o' : Tasks05.SelectorBuilder) : Prop :=
  Tasks05.map o' = Tasks05.map o
  /\ (Tasks05.combineSelector o' = true -> Tasks05.combineSelector o = true).

(** ** Rectangle

    JavaScript numbers are IEEE 754 doubles and [*] is their product:
    [float] and [PrimFloat.mul].  The object has three own properties; the
    arrow function stored in [getArea] closes over the parameters
    [recWidth] and [recHeight] ([width] and [height] in part_000), not over
    the properties. *)

Module Rectangle.
Record object : Type := {
  width : float;
  height : float;
  getArea : unit -> float
}.

Definition Rectangle (recWidth recHeight : float) : object := {|
  width := recWidth;
  height := recHeight;
  getArea := fun _ => PrimFloat.mul recWidth recHeight
|}.

(** What a caller can do to the fields afterwards: [r.width = v] and
    [r.height = v]. *)
Inductive assignment : Type :=
| Set_width (v : float)
| Set_height (v : float).

Definition assign (r : object) (a : assignment) : object :=
  match a with
  | Set_width v => {| width := v; height := height r; getArea := getArea r |}
  | Set_height v => {| width := width r; height := v; getArea := getArea r |}
  end.

Definition assign_all (r : object) (l : list assignment) : object :=
  fold_left assign l r.
End Rectangle.

(** ** JSON

    [getJSON] and [fromJSON] are calls to the built-ins [JSON.stringify],
    [JSON.parse] and [Object.values]; this is their embedding, for the
    values and the texts listed here.

    - A number is an integer a double holds exactly (at most 2^53 - 1 in
      absolute value), and there is one zero.  The number texts with a
      fraction or an exponent, those beyond that range and the text [-0]
      are outside the model.
    - A string is a sequence of code units below 256; a [\u] escape above
      that is outside the model.
    - An object is the list of its own properties in the order
      [Object.keys] and [JSON.stringify] enumerate them: array-index keys
      first, ascending, then the other keys in the order of their creation.

    The parser tells a text that is not JSON, on which [JSON.parse] throws
    a SyntaxError, from a text outside the model, of which it says
    nothing. *)

Module JSON.

#[local] Unset Elimination Schemes.
Inductive value : Type :=
| Null
| Bool (b : bool)
| Number (z : Z)
| Text (s : string)
| Array (elements : list value)
| Object (properties : list (string * value)).
#[local] Set Elimination Schemes.

(** What the parser says of a text: [Parsed], the value [JSON.parse]
    returns; [Malformed], [JSON.parse] throws a SyntaxError; [Unmodelled],
    the text is outside the model, or the parser ran out of fuel. *)
Inductive parsed (A : Type) : Type :=
| Parsed (a : A)
| Malformed
| Unmodelled.
Arguments Parsed {A} a.
Arguments Malformed {A}.
Arguments Unmodelled {A}.

Definition quotation_mark : ascii := "034"%char.
Definition backslash : ascii := "\"%char.

Definition max_safe_integer : Z := 9007199254740991.

(** *** Property order of an ordinary object *)

(** An array index is the canonical decimal text of an integer from 0 to
    2^32 - 2. *)
Definition digit_of (c : ascii) : option (Decimal.uint -> Decimal.uint) :=
  match c with
  | "0" => Some Decimal.D0
  | "1" => Some Decimal.D1
  | "2" => Some Decimal.D2
  | "3" => Some Decimal.D3
  | "4" => Some Decimal.D4
  | "5" => Some Decimal.D5
  | "6" => Some Decimal.D6
  | "7" => Some Decimal.D7
  | "8" => Some Decimal.D8
  | "9" => Some Decimal.D9
  | _ => None
  end%char.

(** The longest prefix of decimal digits, and what follows it. *)
Fixpoint parse_digits (s : string) : Decimal.uint * string :=
  match s with
  | String c rest =>
      match digit_of c with
      | Some D => let (d, r) := parse_digits rest in (D d, r)
      | None => (Decimal.Nil, s)
      end
  | EmptyString => (Decimal.Nil, EmptyString)
  end.

(** Digits without a leading zero, or the single digit 0. *)
Definition canonical (d : Decimal.uint) : bool :=
  Decimal.uint_beq (Decimal.unorm d) d.

Definition array_index (key : string) : option N :=
  match parse_digits key with
  | (d, EmptyString) =>
      if canonical d && (N.of_uint d <=? 4294967294)%N then Some (N.of_uint d) else None
  | _ => None
  end.

(** [key] is enumerated before [key']: both are array indices and the
    first is smaller, or only the first is an array index. *)
Definition before (key key' : string) : bool :=
  match array_index key, array_index key' with
  | Some i, Some i' => (i <? i')%N
  | Some _, None => true
  | None, _ => false
  end.

Definition has_property (properties : list (string * value)) (key : string) : bool :=
  existsb (fun p => String.eqb (fst p) key) properties.

Fixpoint replace (properties : list (string * value)) (key : string) (v : value)
    : list (string * value) :=
  match properties with
  | [] => []
  | (k, v') :: rest =>
      if String.eqb k key then (k, v) :: rest else (k, v') :: replace rest key v
  end.

Fixpoint place (properties : list (string * value)) (key : string) (v : value)
    : list (string * value) :=
  match properties with
  | [] => [(key, v)]
  | (k, v') :: rest =>
      if before key k then (key, v) :: (k, v') :: rest else (k, v') :: place rest key v
  end.

(** [CreateDataProperty]: a present key keeps its place and takes the new
    value; a new key goes where the enumeration order puts it. *)
Definition define (properties : list (string * value)) (key : string) (v : value)
    : list (string * value) :=
  if has_property properties key then replace properties key v
  else place properties key v.

(** The object after defining the properties in the given order, starting
    from none: an object literal, or the members of a JSON text. *)
Definition object_of (members : list (string * value)) : value :=
  Object (fold_left (fun properties m => define properties (fst m) (snd m)) members []).

(** [Object.values] of an object; the sources call it on objects only. *)
Definition Object_values (v : value) : completion (list value) :=
  match v with
  | Object properties => Normal (List.map snd properties)
  | Array elements => Normal elements
  | Text s => Normal (List.map (fun c => Text (String c EmptyString)) (list_ascii_of_string s))
  | Number _ | Bool _ => Normal []
  | Null => Throw TypeError
  end.

(** *** JSON.stringify *)

(** The lower-case hexadecimal digit of a number below 16. *)
Definition hex_digit (n : N) : ascii :=
  ascii_of_N (if (n <? 10)%N then 48 + n else 87 + n)%N.

(** One code unit inside a quoted string. *)
Definition escape (c : ascii) : string :=
  match c with
  | "034" => String backslash (String quotation_mark EmptyString)
  | "\" => String backslash (String backslash EmptyString)
  | "008" => String backslash "b"
  | "012" => String backslash "f"
  | "010" => String backslash "n"
  | "013" => String backslash "r"
  | "009" => String backslash "t"
  | _ =>
      if (N_of_ascii c <? 32)%N
      then String backslash
             (String "u" (String "0" (String "0"
               (String (hex_digit (N_of_ascii c / 16))
                  (String (hex_digit (N_of_ascii c mod 16)) EmptyString)))))
      else String c EmptyString
  end%char.

Fixpoint escape_all (s : string) : string :=
  match s with
  | EmptyString => EmptyString
  | String c rest => escape c +:+ escape_all rest
  end.

Definition quote (s : string) : string :=
  String quotation_mark (escape_all s +:+ String quotation_mark EmptyString).

Definition number_text (z : Z) : string :=
  NilEmpty.string_of_int (Z.to_int z).

Fixpoint commas (texts : list string) : string :=
  match texts with
  | [] => EmptyString
  | [t] => t
  | t :: rest => t +:+ "," +:+ commas rest
  end.

Fixpoint to_text (v : value) : string :=
  match v with
  | Null => "null"
  | Bool true => "true"
  | Bool false => "false"
  | Number z => number_text z
  | Text s => quote s
  | Array elements => "[" +:+ commas (List.map to_text elements) +:+ "]"
  | Object properties =>
      "{" +:+ commas (List.map (fun p => quote (fst p) +:+ ":" +:+ to_text (snd p)) properties)
      +:+ "}"
  end.

Definition stringify (v : value) : string := to_text v.

(** *** JSON.parse *)

Definition is_whitespace (c : ascii) : bool :=
  match c with
  | " " | "009" | "010" | "013" => true
  | _ => false
  end%char.

Fixpoint skip_whitespace (s : string) : string :=
  match s with
  | String c rest => if is_whitespace c then skip_whitespace rest else s
  | EmptyString => EmptyString
  end.

(** The value of a hexadecimal digit, of either case. *)
Definition hex_value (c : ascii) : option N :=
  let n := N_of_ascii c in
  if (48 <=? n)%N && (n <=? 57)%N then Some (n - 48)%N
  else if (97 <=? n)%N && (n <=? 102)%N then Some (n - 87)%N
  else if (65 <=? n)%N && (n <=? 70)%N then Some (n - 55)%N
  else None.

(** A [\u] escape with four hexadecimal digits; a code unit from 256 on is
    outside the model. *)
Definition code_unit (h1 h2 h3 h4 : ascii) : parsed ascii :=
  match hex_value h1, hex_value h2, hex_value h3, hex_value h4 with
  | Some a, Some b, Some c, Some d =>
      let n := (((a * 16 + b) * 16 + c) * 16 + d)%N in
      if (n <? 256)%N then Parsed (ascii_of_N n) else Unmodelled
  | _, _, _, _ => Malformed
  end.

Definition prepend (c : ascii) (r : parsed (string * string)) : parsed (string * string) :=
  match r with
  | Parsed (s, rest) => Parsed (String c s, rest)
  | Malformed => Malformed
  | Unmodelled => Unmodelled
  end.

(** The characters of a string after its opening quotation mark, up to the
    closing one. *)
Fixpoint parse_characters (s : string) : parsed (string * string) :=
  match s with
  | EmptyString => Malformed
  | String c rest =>
      if Ascii.eqb c quotation_mark then Parsed (EmptyString, rest)
      else if Ascii.eqb c backslash then
        match rest with
        | String e rest' =>
            match e with
            | "034" => prepend quotation_mark (parse_characters rest')
            | "\" => prepend backslash (parse_characters rest')
            | "/" => prepend "/" (parse_characters rest')
            | "b" => prepend "008" (parse_characters rest')
            | "f" => prepend "012" (parse_characters rest')
            | "n" => prepend "010" (parse_characters rest')
            | "r" => prepend "013" (parse_characters rest')
            | "t" => prepend "009" (parse_characters rest')
            | "u" =>
                match rest' with
                | String h1 (String h2 (String h3 (String h4 rest''))) =>
                    match code_unit h1 h2 h3 h4 with
                    | Parsed u => prepend u (parse_characters rest'')
                    | Malformed => Malformed
                    | Unmodelled => Unmodelled
                    end
                | _ => Malformed
                end
            | _ => Malformed
            end%char
        | EmptyString => Malformed
        end
      else if (N_of_ascii c <? 32)%N then Malformed
      else prepend c (parse_characters rest)
  end.

Definition continues_number (s : string) : bool :=
  match s with
  | String c _ =>
      match c with "." | "e" | "E" => true | _ => false end%char
  | EmptyString => false
  end.

(** A number token, [-]digits.  Digits that are missing or have a leading
    zero are not JSON.  A fraction or an exponent behind the digits, the
    text [-0] (which [JSON.parse] reads as the negative zero) and an integer
    beyond the safe range are outside the model. *)
Definition parse_number (s : string) : parsed (Z * string) :=
  let '(negative, s1) :=
    match s with
    | String "-" r => (true, r)
    | _ => (false, s)
    end%char in
  let '(d, rest) := parse_digits s1 in
  if negb (canonical d) then Malformed
  else if continues_number rest then Unmodelled
  else
    let z := Z.of_int (if negative then Decimal.Neg d else Decimal.Pos d) in
    if negative && (z =? 0)%Z then Unmodelled
    else if (Z.abs z <=? max_safe_integer)%Z then Parsed (z, rest)
    else Unmodelled.

(** What follows [word] at the start of [s]. *)
Fixpoint strip_prefix (word s : string) : option string :=
  match word with
  | EmptyString => Some s
  | String c word' =>
      match s with
      | String c' s' => if Ascii.eqb c c' then strip_prefix word' s' else None
      | EmptyString => None
      end
  end.

Definition literal (word : string) (v : value) (s : string) : parsed (value * string) :=
  match strip_prefix word s with
  | Some rest => Parsed (v, rest)
  | None => Malformed
  end.

(** The text behind the next character, white space skipped, when that
    character is [c]. *)
Definition accept (c : ascii) (s : string) : option string :=
  match skip_whitespace s with
  | String c' rest => if Ascii.eqb c' c then Some rest else None
  | EmptyString => None
  end.

(** The syntax tree of a text, its members in the order of the text. *)
Fixpoint parse_value (fuel : nat) (s : string) : parsed (value * string) :=
  match fuel with
  | O => Unmodelled
  | S fuel =>
      match skip_whitespace s with
      | String c rest =>
          if Ascii.eqb c "{" then
            match accept "}" rest with
            | Some rest' => Parsed (Object [], rest')
            | None =>
                match parse_members fuel rest with
                | Parsed (members, rest') => Parsed (Object members, rest')
                | Malformed => Malformed
                | Unmodelled => Unmodelled
                end
            end
          else if Ascii.eqb c "[" then
            match accept "]" rest with
            | Some rest' => Parsed (Array [], rest')
            | None =>
                match parse_elements fuel rest with
                | Parsed (elements, rest') => Parsed (Array elements, rest')
                | Malformed => Malformed
                | Unmodelled => Unmodelled
                end
            end
          else if Ascii.eqb c quotation_mark then
            match parse_characters rest with
            | Parsed (text, rest') => Parsed (Text text, rest')
            | Malformed => Malformed
            | Unmodelled => Unmodelled
            end
          else if Ascii.eqb c "t" then literal "true" (Bool true) (String c rest)
          else if Ascii.eqb c "f" then literal "false" (Bool false) (String c rest)
          else if Ascii.eqb c "n" then literal "null" Null (String c rest)
          else
            match parse_number (String c rest) with
            | Parsed (z, rest') => Parsed (Number z, rest')
            | Malformed => Malformed
            | Unmodelled => Unmodelled
            end
      | EmptyString => Malformed
      end
  end
with parse_elements (fuel : nat) (s : string) : parsed (list value * string) :=
  match fuel with
  | O => Unmodelled
  | S fuel =>
      match parse_value fuel s with
      | Parsed (v, rest) =>
          match accept "]" rest with
          | Some rest' => Parsed ([v], rest')
          | None =>
              match accept "," rest with
              | Some rest' =>
                  match parse_elements fuel rest' with
                  | Parsed (elements, rest'') => Parsed (v :: elements, rest'')
                  | Malformed => Malformed
                  | Unmodelled => Unmodelled
                  end
              | None => Malformed
              end
          end
      | Malformed => Malformed
      | Unmodelled => Unmodelled
      end
  end
with parse_members (fuel : nat) (s : string) : parsed (list (string * value) * string) :=
  match fuel with
  | O => Unmodelled
  | S fuel =>
      match accept quotation_mark s with
      | Some rest =>
          match parse_characters rest with
          | Parsed (key, rest1) =>
              match accept ":" rest1 with
              | Some rest2 =>
                  match parse_value fuel rest2 with
                  | Parsed (v, rest3) =>
                      match accept "}" rest3 with
                      | Some rest' => Parsed ([(key, v)], rest')
                      | None =>
                          match accept "," rest3 with
                          | Some rest' =>
                              match parse_members fuel rest' with
                              | Parsed (members, rest'') =>
                                  Parsed ((key, v) :: members, rest'')
                              | Malformed => Malformed
                              | Unmodelled => Unmodelled
                              end
                          | None => Malformed
                          end
                      end
                  | Malformed => Malformed
                  | Unmodelled => Unmodelled
                  end
              | None => Malformed
              end
          | Malformed => Malformed
          | Unmodelled => Unmodelled
          end
      | None => Malformed
      end
  end.

Definition parse_text (text : string) : parsed value :=
  match parse_value (S (String.length text)) text with
  | Parsed (v, rest) =>
      match skip_whitespace rest with
      | EmptyString => Parsed v
      | _ => Malformed
      end
  | Malformed => Malformed
  | Unmodelled => Unmodelled
  end.

(** The value a syntax tree denotes: the members of an object are defined
    one after the other, in the order of the text. *)
Fixpoint build (tree : value) : value :=
  match tree with
  | Array elements => Array (List.map build elements)
  | Object members => object_of (List.map (fun m => (fst m, build (snd m))) members)
  | _ => tree
  end.

Definition parse (text : string) : parsed value :=
  match parse_text text with
  | Parsed tree => Parsed (build tree)
  | Malformed => Malformed
  | Unmodelled => Unmodelled
  end.

End JSON.

(** [getJSON(obj)] *)
Definition getJSON (obj : JSON.value) : string := JSON.stringify obj.

(** [fromJSON(proto, json)]; [construct] is [new proto.constructor(...)]
    as a function of the argument list.  The SyntaxError of [JSON.parse]
    goes to the caller; [None] is a text outside the model. *)
Definition fromJSON {Instance : Type} (construct : list JSON.value -> completion Instance)
    (json : string) : option (completion Instance) :=
  match JSON.parse json with
  | JSON.Parsed obj =>
      match JSON.Object_values obj with
      | Normal values => Some (construct values)
      | Throw e => Some (Throw e)
      end
  | JSON.Malformed => Some (Throw SyntaxError)
  | JSON.Unmodelled => None
  end.

(** *** The enumeration order, said without the code *)


(** A member whose key is an array index, and the index. *)
Definition index_key (m : string * JSON.value) : bool :=
  match JSON.array_index (fst m) with Some _ => true | None => false end.

Definition index_of (m : string * JSON.value) : N :=
  match JSON.array_index (fst m) with Some n => n | None => 0%N end.

Definition index_lt (m m' : string * JSON.value) : Prop :=
  (index_of m < index_of m')%N.


(** One member for every key, at the place where the key appears first
    and with the value it is given last. *)
Definition distinct_members (members : list (string * JSON.value))
    : list (string * JSON.value) :=
  fold_left (fun found m => JsMap.set found (fst m) (snd m)) members [].


(** [properties] has the members with an array-index key first, by
    ascending index, then the other members in the order of [members]. *)
Definition enumeration_of (members properties : list (string * JSON.value)) : Prop :=
  exists indexed,
    Permutation indexed (List.filter index_key members)
    /\ StronglySorted index_lt indexed
    /\ properties = indexed ++ List.filter (fun m => negb (index_key m)) members.

(** *** The values of the model, and a measure for the parser's fuel *)

(** Keys in enumeration order, none twice. *)
Fixpoint enumerated (keys : list string) : bool :=
  match keys with
  | [] => true
  | k :: rest =>
      forallb (fun k' => negb (String.eqb k k') && negb (JSON.before k' k)) rest
      && enumerated rest
  end.

(** A number is in the safe range, an object has its properties in
    enumeration order, at every depth. *)
Fixpoint is_json_value (v : JSON.value) : bool :=
  match v with
  | JSON.Number z => (Z.abs z <=? JSON.max_safe_integer)%Z
  | JSON.Array elements => forallb is_json_value elements
  | JSON.Object properties =>
      enumerated (List.map fst properties)
      && forallb (fun p => is_json_value (snd p)) properties
  | _ => true
  end.

(** A syntax tree the parser can return: numbers in the safe range. *)
Fixpoint is_tree (v : JSON.value) : bool :=
  match v with
  | JSON.Number z => (Z.abs z <=? JSON.max_safe_integer)%Z
  | JSON.Array elements => forallb is_tree elements
  | JSON.Object members => forallb (fun m => is_tree (snd m)) members
  | _ => true
  end.

Fixpoint size (v : JSON.value) : nat :=
  match v with
  | JSON.Array elements => S (list_sum (List.map (fun e => S (size e)) elements))
  | JSON.Object members => S (list_sum (List.map (fun m => S (size (snd m))) members))
  | _ => 1
  end.

(** What may follow a value in a text: nothing, or a comma or a closing
    bracket. *)
Definition delimited (rest : string) : Prop :=
  match rest with
  | EmptyString => True
  | String c _ => c = ","%char \/ c = "]"%char \/ c = "}"%char
  end.

(** What may follow a number: no digit, and nothing of a fraction or an
    exponent. *)
Definition ends_number (rest : string) : Prop :=
  match rest with
  | EmptyString => True
  | String c _ => JSON.digit_of c = None /\ JSON.continues_number rest = false
  end.

(** The first character of a value's text: no white space and none of the
    characters that may follow a value. *)
Definition starts_value (c : ascii) : Prop :=
  JSON.is_whitespace c = false /\ c <> "]"%char /\ c <> "}"%char /\ c <> ","%char.

(** Induction on values, with the hypothesis for every element of an
    array and every member of an object. *)
Section value_induction.
Variable P : JSON.value -> Prop.
Hypothesis P_Null : P JSON.Null.
Hypothesis P_Bool : forall b, P (JSON.Bool b).
Hypothesis P_Number : forall z, P (JSON.Number z).
Hypothesis P_Text : forall s, P (JSON.Text s).
Hypothesis P_Array : forall elements, Forall P elements -> P (JSON.Array elements).
Hypothesis P_Object :
  forall members, Forall (fun m => P (snd m)) members -> P (JSON.Object members).

Fixpoint value_induction (v : JSON.value) : P v :=
  match v with
  | JSON.Null => P_Null
  | JSON.Bool b => P_Bool b
  | JSON.Number z => P_Number z
  | JSON.Text s => P_Text s
  | JSON.Array elements =>
      P_Array elements
        ((fix all (l : list JSON.value) : Forall P l :=
            match l with
            | [] => List.Forall_nil P
            | e :: l' => @List.Forall_cons _ P e l' (value_induction e) (all l')
            end) elements)
  | JSON.Object members =>
      P_Object members
        ((fix all (l : list (string * JSON.value)) : Forall (fun m => P (snd m)) l :=
            match l with
            | [] => List.Forall_nil _
            | m :: l' => @List.Forall_cons _ _ m l' (value_induction (snd m)) (all l')
            end) members)
  end.
End value_induction.

(** * Properties *)

(** ** Strings and Maps *)

Lemma append_cons (c : ascii) (s1 s2 : string) :
  String c s1 +:+ s2 = String c (s1 +:+ s2).
Proof. reflexivity. Qed.

Lemma append_nil_l (s : string) : "" +:+ s = s.
Proof. reflexivity. Qed.

Lemma append_nil_r (s : string) : s +:+ "" = s.
Proof.
  induction s as [|c s IH]; [reflexivity |].
  now rewrite append_cons, IH.
Qed.

Lemma append_assoc (s1 s2 s3 : string) : (s1 +:+ s2) +:+ s3 = s1 +:+ (s2 +:+ s3).
Proof.
  induction s1 as [|c s1 IH]; [reflexivity |].
  now rewrite !append_cons, IH.
Qed.

Lemma join_cons (s : string) (l : list string) :
  Fragment.join (s :: l) = s +:+ Fragment.join l.
Proof. reflexivity. Qed.

Lemma join_app (l1 l2 : list string) :
  Fragment.join (l1 ++ l2) = Fragment.join l1 +:+ Fragment.join l2.
Proof.
  induction l1 as [|s l1 IH]; [reflexivity |].
  rewrite <- app_comm_cons, !join_cons, IH. now rewrite append_assoc.
Qed.

Lemma join_flat_map {A} (f : A -> list string) (l : list A) :
  Fragment.join (List.flat_map f l) = Fragment.join (List.map (fun x => Fragment.join (f x)) l).
Proof.
  induction l as [|x l IH]; [reflexivity |].
  cbn [List.flat_map List.map]. now rewrite join_app, IH, join_cons.
Qed.

(** ** The monad, unfolded *)

Ltac eff :=
  unfold Fragment.element, Fragment.id, Fragment.class, Fragment.attr,
    Fragment.pseudoClass, Fragment.pseudoElement, Fragment.checkElementExist,
    Fragment.checkIdExist, Fragment.checkPseudoElementExist,
    Fragment.checkElementOrder, Fragment.throwPathException,
    Fragment.setArrayValueToMap, Fragment.map_set,
    mbind, mret, Eff_bind, Eff_ret, throw, get_state, put_state in *.

Lemma bind_normal {S A B} (m : Eff S A) (f : A -> Eff S B) (s s' : S) (a : A) :
  m s = (Normal a, s') -> (m ≫= f) s = f a s'.
Proof. intros H. unfold mbind, Eff_bind. now rewrite H. Qed.

Lemma bind_throw {S A B} (m : Eff S A) (f : A -> Eff S B) (s s' : S) (e : exn) :
  m s = (Throw e, s') -> (m ≫= f) s = (Throw e, s').
Proof. intros H. unfold mbind, Eff_bind. now rewrite H. Qed.

(** A bind that throws: the first part threw, or it returned and the rest threw. *)
Lemma bind_inv_throw {S A B} (m : Eff S A) (f : A -> Eff S B) (s s' : S) (e : exn) :
  (m ≫= f) s = (Throw e, s') ->
  m s = (Throw e, s') \/ exists a s1, m s = (Normal a, s1) /\ f a s1 = (Throw e, s').
Proof.
  unfold mbind, Eff_bind. destruct (m s) as [[a|e'] s1]; intros H.
  - right. now exists a, s1.
  - left. now inversion H.
Qed.

Lemma bind_inv_normal {S A B} (m : Eff S A) (f : A -> Eff S B) (s s' : S) (b : B) :
  (m ≫= f) s = (Normal b, s') ->
  exists a s1, m s = (Normal a, s1) /\ f a s1 = (Normal b, s').
Proof.
  unfold mbind, Eff_bind. destruct (m s) as [[a|e'] s1]; intros H.
  - now exists a, s1.
  - discriminate.
Qed.

(** ** Duplicate check *)

Lemma checkElementExist_run (map : Fragment.fragments) :
  Fragment.checkElementExist map =
    if JsMap.has map ELEMENTS.TAG then (Throw Fragment.DuplicateFragmentError, map)
    else (Normal tt, map).
Proof. eff. now destruct (JsMap.has _ _). Qed.

Lemma checkIdExist_run (map : Fragment.fragments) :
  Fragment.checkIdExist map =
    if JsMap.has map ELEMENTS.ID then (Throw Fragment.DuplicateFragmentError, map)
    else (Normal tt, map).
Proof. eff. now destruct (JsMap.has _ _). Qed.

Lemma checkPseudoElementExist_run (map : Fragment.fragments) :
  Fragment.checkPseudoElementExist map =
    if JsMap.has map ELEMENTS.PSEUDO_ELEMENT
    then (Throw Fragment.DuplicateFragmentError, map)
    else (Normal tt, map).
Proof. eff. now destruct (JsMap.has _ _). Qed.

Lemma insert_duplicate (K : Kind) (text : string) (map : Fragment.fragments) :
  Kind.repeatable K = false ->
  JsMap.has map (Kind.key K) = true ->
  Kind.insert K text map = (Throw Fragment.DuplicateFragmentError, map).
Proof.
  destruct K; cbn; try discriminate; intros _ H; apply bind_throw.
  - now rewrite checkElementExist_run, H.
  - now rewrite checkIdExist_run, H.
  - now rewrite checkPseudoElementExist_run, H.
Qed.

(** ** Order check *)

Lemma scanned_keys (K : Kind) :
  drop (Z.to_nat (Fragment.indexOf Fragment.elementsPathOrder (Kind.key K) + 1))
    Fragment.elementsPathOrder
  = List.map Kind.key (later_kinds K).
Proof. destruct K; reflexivity. Qed.

Lemma in_later_kinds (K K' : Kind) :
  In K' (later_kinds K) <-> Kind.rank K < Kind.rank K'.
Proof.
  unfold later_kinds. rewrite filter_In, Nat.ltb_lt. split; [tauto |].
  intros H; split; [| exact H]. destruct K'; cbn; tauto.
Qed.

Lemma checkElementOrder_run (K : Kind) (map : Fragment.fragments) :
  Fragment.checkElementOrder (Kind.key K) map =
    if existsb (fun K' => JsMap.has map (Kind.key K')) (later_kinds K)
    then (Throw Fragment.OrderViolationError, map)
    else (Normal tt, map).
Proof.
  unfold Fragment.checkElementOrder. eff. rewrite scanned_keys.
  replace (existsb (JsMap.has map) (List.map Kind.key (later_kinds K)))
    with (existsb (fun K' => JsMap.has map (Kind.key K')) (later_kinds K)).
  - now destruct (existsb _ _).
  - induction (later_kinds K) as [|K' l IH]; [reflexivity |].
    cbn [existsb List.map]. now rewrite IH.
Qed.

Lemma checkElementOrder_throws (K K' : Kind) (map : Fragment.fragments) :
  Kind.rank K < Kind.rank K' ->
  JsMap.has map (Kind.key K') = true ->
  Fragment.checkElementOrder (Kind.key K) map = (Throw Fragment.OrderViolationError, map).
Proof.
  intros Hlt H. rewrite checkElementOrder_run.
  replace (existsb _ _) with true; [reflexivity |].
  symmetry. apply existsb_exists. exists K'. split; [| exact H].
  now apply in_later_kinds.
Qed.

Lemma insert_order_violation (K K' : Kind) (text : string) (map : Fragment.fragments) :
  Kind.rank K < Kind.rank K' ->
  JsMap.has map (Kind.key K') = true ->
  Kind.insert K text map =
    (Throw (if negb (Kind.repeatable K) && JsMap.has map (Kind.key K)
            then Fragment.DuplicateFragmentError
            else Fragment.OrderViolationError), map).
Proof.
  intros Hlt H.
  pose proof (checkElementOrder_throws K K' map Hlt H) as Ho.
  destruct (negb (Kind.repeatable K) && JsMap.has map (Kind.key K)) eqn:E.
  - apply andb_true_iff in E as [E1 E2]. apply negb_true_iff in E1.
    now apply insert_duplicate.
  - destruct K; cbn [Kind.repeatable negb andb Kind.key Kind.insert] in *;
      try (apply bind_throw; exact Ho).
    + unfold Fragment.element. erewrite bind_normal.
      2: { rewrite checkElementExist_run, E. reflexivity. }
      now apply bind_throw.
    + unfold Fragment.id. erewrite bind_normal.
      2: { rewrite checkIdExist_run, E. reflexivity. }
      now apply bind_throw.
    + cbn in Hlt. destruct K'; cbn in Hlt; lia.
Qed.


(** ** A failing insertion leaves the Map as it was *)

(** The checks only read. *)
Lemma checkElementExist_state (map map' : Fragment.fragments) (r : completion unit) :
  Fragment.checkElementExist map = (r, map') -> map' = map.
Proof. rewrite checkElementExist_run. destruct (JsMap.has _ _); congruence. Qed.

Lemma checkIdExist_state (map map' : Fragment.fragments) (r : completion unit) :
  Fragment.checkIdExist map = (r, map') -> map' = map.
Proof. rewrite checkIdExist_run. destruct (JsMap.has _ _); congruence. Qed.

Lemma checkPseudoElementExist_state (map map' : Fragment.fragments) (r : completion unit) :
  Fragment.checkPseudoElementExist map = (r, map') -> map' = map.
Proof. rewrite checkPseudoElementExist_run. destruct (JsMap.has _ _); congruence. Qed.

Lemma checkElementOrder_state (element : string) (map map' : Fragment.fragments)
    (r : completion unit) :
  Fragment.checkElementOrder element map = (r, map') -> map' = map.
Proof. eff. destruct (existsb _ _); congruence. Qed.

Lemma map_set_normal (key : string) (value : MapValue) (map : Fragment.fragments) :
  Fragment.map_set key value map = (Normal tt, JsMap.set map key value).
Proof. reflexivity. Qed.

Lemma setArrayValueToMap_throw (key value : string) (map map' : Fragment.fragments)
    (e : exn) :
  Fragment.setArrayValueToMap key value map = (Throw e, map') -> map' = map /\ e = TypeError.
Proof.
  eff. destruct (JsMap.get map key) as [[[|c s]|elements]|]; intros H; inversion H; auto.
Qed.

Ltac throw_cases H :=
  repeat match type of H with
    | (_ ≫= _) _ = (Throw _, _) =>
        let a := fresh "a" in let s := fresh "s" in
        let H1 := fresh "H" in let H2 := fresh "H" in
        apply bind_inv_throw in H as [H | (a & s & H1 & H)]
    end.

Ltac same_state :=
  repeat match goal with
    | H : Fragment.checkElementExist _ = _ |- _ =>
        apply checkElementExist_state in H; subst
    | H : Fragment.checkIdExist _ = _ |- _ =>
        apply checkIdExist_state in H; subst
    | H : Fragment.checkPseudoElementExist _ = _ |- _ =>
        apply checkPseudoElementExist_state in H; subst
    | H : Fragment.checkElementOrder _ _ = _ |- _ =>
        apply checkElementOrder_state in H; subst
    | H : Fragment.setArrayValueToMap _ _ _ = (Throw _, _) |- _ =>
        apply setArrayValueToMap_throw in H as [? ?]; subst
    | H : Fragment.map_set _ _ _ = (Throw _, _) |- _ =>
        rewrite map_set_normal in H; discriminate H
    end.

Lemma insert_throw_state (K : Kind) (text : string) (map map' : Fragment.fragments)
    (e : exn) :
  Kind.insert K text map = (Throw e, map') -> map' = map.
Proof.
  intros H.
  destruct K; cbn [Kind.insert] in H;
    unfold Fragment.element, Fragment.id, Fragment.class, Fragment.attr,
      Fragment.pseudoClass, Fragment.pseudoElement in H;
    throw_cases H; same_state; reflexivity.
Qed.

(** ** The Map after a sequence of insertions *)

Lemma insert_map_of (K : Kind) (text : string) (texts : Kind -> list string)
    (map' : Fragment.fragments) :
  singletons texts ->
  Kind.insert K text (map_of texts) = (Normal tt, map') ->
  map' = map_of (add_text texts K text) /\ singletons (add_text texts K text).
Proof.
  intros Hs H.
  assert (Hs' : singletons (add_text texts K text)).
  { intros K' HK'. unfold add_text. destruct (Kind.eqb K K') eqn:E; [| now apply Hs].
    assert (K = K') as <- by (destruct K, K'; cbn in E; congruence).
    rewrite length_app. cbn.
    destruct (texts K) as [|t l] eqn:Et; [cbn; lia |].
    exfalso. rewrite insert_duplicate in H; [discriminate | exact HK' |].
    unfold map_of, Kind.all. cbn [flat_map].
    destruct K; try discriminate HK'; rewrite Et;
      destruct (texts Type_), (texts Id), (texts Class), (texts Attribute),
        (texts PseudoClass), (texts PseudoElement); reflexivity. }
  split; [| exact Hs'].
  unfold map_of, add_text, Kind.all in *. cbn [flat_map] in *.
  destruct K; cbn [Kind.eqb Kind.rank Nat.eqb] in *;
    destruct (texts Type_) as [|? ?], (texts Id) as [|? ?], (texts Class) as [|? ?],
      (texts Attribute) as [|? ?], (texts PseudoClass) as [|? ?],
      (texts PseudoElement) as [|? ?];
    vm_compute in H; try discriminate H;
    injection H as <-; cbn [app entry List.map Kind.repeatable]; rewrite ?map_app;
    reflexivity.
Qed.

Lemma add_all_texts_of (ops : list (Kind * string)) (texts : Kind -> list string) (K : Kind) :
  add_all texts ops K = texts K ++ texts_of K ops.
Proof.
  revert texts. induction ops as [|[K0 text] ops IH]; intros texts.
  - cbn. now rewrite app_nil_r.
  - cbn [add_all fold_left fst snd]. fold (add_all (add_text texts K0 text) ops).
    rewrite IH. unfold add_text, texts_of. cbn [List.filter fst].
    destruct (Kind.eqb K0 K); cbn [List.map snd]; [| reflexivity].
    now rewrite <- app_assoc.
Qed.

Lemma map_of_ext (texts texts' : Kind -> list string) :
  (forall K, texts K = texts' K) -> map_of texts = map_of texts'.
Proof. intros H. unfold map_of, Kind.all. cbn [flat_map]. now rewrite !H. Qed.

Lemma singletons_ext (texts texts' : Kind -> list string) :
  (forall K, texts K = texts' K) -> singletons texts -> singletons texts'.
Proof. intros H Hs K HK. rewrite <- H. now apply Hs. Qed.

Lemma insert_all_map_of (ops : list (Kind * string)) (texts : Kind -> list string)
    (map' : Fragment.fragments) :
  singletons texts ->
  insert_all ops (map_of texts) = (Normal tt, map') ->
  map' = map_of (add_all texts ops) /\ singletons (add_all texts ops).
Proof.
  revert texts. induction ops as [|[K text] ops IH]; intros texts Hs H.
  - cbn in H. injection H as <-. now split.
  - cbn [insert_all] in H. apply bind_inv_normal in H as ([] & map1 & H1 & H2).
    apply insert_map_of in H1 as [-> Hs1]; [| exact Hs].
    now apply IH in H2.
Qed.

(** After a sequence of insertions that all returned, the Map holds one
    entry per kind that occurs, in kind order, and no singleton kind twice. *)
Lemma insert_all_empty (ops : list (Kind * string)) (map' : Fragment.fragments) :
  insert_all ops JsMap.empty = (Normal tt, map') ->
  map' = map_of (fun K => texts_of K ops) /\ singletons (fun K => texts_of K ops).
Proof.
  intros H.
  change (@JsMap.empty MapValue) with (map_of (fun _ => [])) in H.
  apply insert_all_map_of in H as [-> Hs].
  - split.
    + apply map_of_ext. intros K. now rewrite add_all_texts_of.
    + eapply singletons_ext; [| exact Hs]. intros K. now rewrite add_all_texts_of.
  - intros K _. cbn. lia.
Qed.

(** ** Rendering a Map *)

Lemma stringify_fold (values : list MapValue) (acc : string) :
  fold_left (fun result value => result +:+ rendered value) values acc
  = acc +:+ Fragment.join (List.map rendered values).
Proof.
  revert acc. induction values as [|v values IH]; intros acc.
  - cbn. now rewrite append_nil_r.
  - cbn [fold_left List.map]. rewrite IH, join_cons. now rewrite append_assoc.
Qed.

Lemma stringify_join (map : Fragment.fragments) :
  Fragment.stringify map = Fragment.join (List.map rendered (JsMap.values map)).
Proof.
  unfold Fragment.stringify.
  change (fun result value => result +:+ match value with
                                        | Arr elements => Fragment.join elements
                                        | Str s => s
                                        end)
    with (fun result value => result +:+ rendered value).
  now rewrite stringify_fold.
Qed.

Lemma rendered_entry (K : Kind) (texts : list string) :
  (Kind.repeatable K = false -> length texts <= 1) ->
  Fragment.join (List.map rendered (JsMap.values (entry K texts)))
  = Fragment.join (List.map (Kind.sigil K) texts).
Proof.
  intros H. destruct texts as [|t l]; [reflexivity |].
  unfold entry. destruct (Kind.repeatable K).
  - cbn [JsMap.values List.map snd rendered]. now rewrite join_cons, append_nil_r.
  - destruct l; [reflexivity | cbn in H; specialize (H eq_refl); lia].
Qed.

Lemma map_over_flat_map {A B C} (f : B -> C) (g : A -> list B) (l : list A) :
  List.map f (List.flat_map g l) = List.flat_map (fun x => List.map f (g x)) l.
Proof.
  induction l as [|x l IH]; [reflexivity |].
  cbn [List.flat_map]. now rewrite map_app, IH.
Qed.

Lemma stringify_map_of (texts : Kind -> list string) :
  singletons texts ->
  Fragment.stringify (map_of texts)
  = Fragment.join (List.flat_map (fun K => List.map (Kind.sigil K) (texts K)) Kind.all).
Proof.
  intros Hs. rewrite stringify_join. unfold map_of, JsMap.values.
  rewrite !map_over_flat_map, !join_flat_map. f_equal. apply map_ext. intros K.
  apply (rendered_entry K (texts K)). apply Hs.
Qed.

(** The Map branch of [stringify] after a sequence of insertions. *)
Lemma stringify_insert_all (ops : list (Kind * string)) (map' : Fragment.fragments) :
  insert_all ops JsMap.empty = (Normal tt, map') ->
  Fragment.stringify map' = expected_rendering ops.
Proof.
  intros H. apply insert_all_empty in H as [-> Hs].
  now rewrite stringify_map_of.
Qed.

(** ** Every valid ordering builds *)

Lemma insert_map_of_returns (K : Kind) (text : string) (texts : Kind -> list string) :
  (forall K', Kind.rank K < Kind.rank K' -> texts K' = []) ->
  (Kind.repeatable K = false -> texts K = []) ->
  exists map', Kind.insert K text (map_of texts) = (Normal tt, map').
Proof.
  intros Hlater Hsame. unfold map_of, Kind.all. cbn [flat_map].
  destruct K; cbn [Kind.repeatable] in Hsame;
    rewrite ?(Hlater Id), ?(Hlater Class), ?(Hlater Attribute), ?(Hlater PseudoClass),
      ?(Hlater PseudoElement) by (cbn; lia);
    rewrite ?Hsame by reflexivity;
    destruct (texts Type_), (texts Id), (texts Class), (texts Attribute),
      (texts PseudoClass), (texts PseudoElement);
    eexists; vm_compute; reflexivity.
Qed.

Lemma kind_eqb_eq (K K' : Kind) : Kind.eqb K K' = true <-> K = K'.
Proof. destruct K, K'; cbn; split; congruence. Qed.

Lemma insert_all_returns (ops : list (Kind * string)) (texts : Kind -> list string) :
  singletons texts ->
  valid_order ops = true ->
  match ops with
  | [] => True
  | (K, _) :: _ =>
      (forall K', Kind.rank K < Kind.rank K' -> texts K' = [])
      /\ (Kind.repeatable K = false -> texts K = [])
  end ->
  exists map', insert_all ops (map_of texts) = (Normal tt, map').
Proof.
  revert texts. induction ops as [|[K text] ops IH]; intros texts Hs Hv Hhead.
  - now eexists.
  - destruct Hhead as [Hlater Hsame].
    destruct (insert_map_of_returns K text texts Hlater Hsame) as [map1 H1].
    destruct (insert_map_of K text texts map1 Hs H1) as [-> Hs1].
    cbn [insert_all]. erewrite bind_normal by exact H1.
    apply IH; [exact Hs1 | |].
    + cbn [valid_order] in Hv. destruct ops as [|[K2 t2] ops]; [reflexivity |].
      now apply andb_true_iff in Hv.
    + destruct ops as [|[K2 t2] ops]; [exact I |].
      cbn [valid_order] in Hv. apply andb_true_iff in Hv as [Hstep _].
      apply orb_true_iff in Hstep as [Hlt | Heq].
      * apply Nat.ltb_lt in Hlt. unfold add_text. split.
        -- intros K' HK'. replace (Kind.eqb K K') with false.
           ++ apply Hlater. lia.
           ++ symmetry. apply not_true_iff_false. rewrite kind_eqb_eq. intros ->. lia.
        -- intros _. replace (Kind.eqb K K2) with false.
           ++ now apply Hlater.
           ++ symmetry. apply not_true_iff_false. rewrite kind_eqb_eq. intros ->. lia.
      * apply andb_true_iff in Heq as [Heq Hrep]. apply kind_eqb_eq in Heq as <-.
        unfold add_text. split.
        -- intros K' HK'. replace (Kind.eqb K K') with false.
           ++ now apply Hlater.
           ++ symmetry. apply not_true_iff_false. rewrite kind_eqb_eq. intros ->. lia.
        -- intros Hno. congruence.
Qed.

(** ** From the Map to the heap *)

Lemma Tasks05_set_map_id (o : Tasks05.SelectorBuilder) : Tasks05.set_map (Tasks05.map o) o = o.
Proof. now destruct o. Qed.

Lemma Tasks05_method (K : Kind) (this : loc) (text : string) :
  method tasks05 K this text = (Tasks05.on_map this (Kind.insert K text);; mret this).
Proof. now destruct K. Qed.

Lemma Part000_method (K : Kind) (this : loc) (text : string) :
  method part000 K this text = (Part000.on_map this (Kind.insert K text);; mret this).
Proof. now destruct K. Qed.

Lemma Tasks05_on_map_run {A} (m : Eff Fragment.fragments A) (h : Tasks05.heap) (this : loc)
    (o : Tasks05.SelectorBuilder) :
  h !! this = Some o ->
  Tasks05.on_map this m h
  = (fst (m (Tasks05.map o)), <[this := Tasks05.set_map (snd (m (Tasks05.map o))) o]> h).
Proof. intros H. unfold Tasks05.on_map. rewrite H. now destruct (m _). Qed.

Lemma Part000_on_map_run {A} (m : Eff Fragment.fragments A) (h : Part000.heap) (this : loc)
    (map : Fragment.fragments) :
  h !! this = Some (Part000.SelectorBuilder map) ->
  Part000.on_map this m h
  = (fst (m map), <[this := Part000.SelectorBuilder (snd (m map))]> h).
Proof. intros H. unfold Part000.on_map. rewrite H. now destruct (m _). Qed.

(** A method call on a builder is the fragment method on its Map; the
    builder stays where it is and stays uncombined. *)
Lemma method_simple (src : source) (h : heap (implementation src)) (this : loc)
    (map : Fragment.fragments) (K : Kind) (text : string) :
  simple_at src h this map ->
  exists h',
    method (implementation src) K this text h
    = (match fst (Kind.insert K text map) with
       | Normal _ => Normal this
       | Throw e => Throw e
       end, h')
    /\ simple_at src h' this (snd (Kind.insert K text map))
    /\ (snd (Kind.insert K text map) = map -> h' = h).
Proof.
  destruct src; cbn [implementation simple_at].
  - intros (o & Ho & <- & Hc).
    exists (<[this := Tasks05.set_map (snd (Kind.insert K text (Tasks05.map o))) o]> h).
    rewrite Tasks05_method.
    unfold mbind, Eff_bind. rewrite (Tasks05_on_map_run _ _ _ _ Ho).
    destruct (Kind.insert K text (Tasks05.map o)) as [[[]|e] m']; cbn [fst snd].
    all: split; [reflexivity |]; split.
    all: try (intros ->; rewrite Tasks05_set_map_id; now apply list_insert_id).
    all: eexists; split; [apply list_lookup_insert_eq; now apply lookup_lt_Some in Ho |];
      now split.
  - intros Ho.
    exists (<[this := Part000.SelectorBuilder (snd (Kind.insert K text map))]> h).
    rewrite Part000_method.
    unfold mbind, Eff_bind. rewrite (Part000_on_map_run _ _ _ _ Ho).
    destruct (Kind.insert K text map) as [[[]|e] m']; cbn [fst snd].
    all: split; [reflexivity |]; split.
    all: try (intros ->; now apply list_insert_id).
    all: apply list_lookup_insert_eq; now apply lookup_lt_Some in Ho.
Qed.

Lemma new_builder_simple (src : source) (h h' : heap (implementation src)) (this : loc) :
  new_builder (implementation src) h = (Normal this, h') ->
  simple_at src h' this JsMap.empty.
Proof.
  destruct src; cbn; intros H; injection H as <- <-.
  - eexists. split; [apply list_lookup_middle; reflexivity | now split].
  - now apply list_lookup_middle.
Qed.

Lemma chain_simple (src : source) (ops : list (Kind * string))
    (h h' : heap (implementation src)) (this node : loc) (map : Fragment.fragments) :
  simple_at src h this map ->
  chain (implementation src) this ops h = (Normal node, h') ->
  node = this /\
  exists map', insert_all ops map = (Normal tt, map') /\ simple_at src h' this map'.
Proof.
  revert h map. induction ops as [|[K text] ops IH]; intros h map Hs H.
  - cbn in H. injection H as <- <-. split; [reflexivity |]. now exists map.
  - cbn [chain] in H. apply bind_inv_normal in H as (this' & h1 & H1 & H2).
    destruct (method_simple src h this map K text Hs) as (h1' & Hm & Hs1 & _).
    rewrite Hm in H1. cbn [insert_all].
    destruct (Kind.insert K text map) as [[[]|e] m1] eqn:E; cbn [fst snd] in *;
      [| discriminate].
    injection H1 as <- <-.
    apply (IH _ _ Hs1) in H2 as (-> & map' & Hi & Hs').
    split; [reflexivity |]. exists map'. split; [| exact Hs'].
    erewrite bind_normal; [exact Hi | exact E].
Qed.

Lemma Tasks05_stringify_simple (h : Tasks05.heap) (this : loc) (o : Tasks05.SelectorBuilder)
    (fuel : nat) :
  h !! this = Some o ->
  Tasks05.combineSelector o = false ->
  Tasks05.stringify (S fuel) this h = Some (Normal (Fragment.stringify (Tasks05.map o)), h).
Proof.
  intros Ho Hc. cbn [Tasks05.stringify].
  unfold mbind, Run_bind, lift, Tasks05.read. now rewrite Ho, Hc.
Qed.

Lemma Part000_stringify_simple (h : Part000.heap) (this : loc) (map : Fragment.fragments)
    (fuel : nat) :
  h !! this = Some (Part000.SelectorBuilder map) ->
  Part000.stringify (S fuel) this h = Some (Normal (Fragment.stringify map), h).
Proof.
  intros Ho. cbn [Part000.stringify].
  unfold mbind, Run_bind, lift, Part000.read. now rewrite Ho.
Qed.

Lemma stringify_simple (src : source) (h : heap (implementation src)) (this : loc)
    (map : Fragment.fragments) (fuel : nat) :
  simple_at src h this map ->
  stringify (implementation src) (S fuel) this h
  = Some (Normal (Fragment.stringify map), h).
Proof.
  destruct src; cbn [implementation simple_at stringify tasks05 part000].
  - intros (o & Ho & <- & Hc). now apply Tasks05_stringify_simple.
  - intros Ho. now apply Part000_stringify_simple.
Qed.

(** A method call through any reference: on a builder it is the fragment
    method on the builder's Map, and a Map left as it was leaves the heap as
    it was; on anything else it is a [TypeError] and nothing changes. *)
Lemma method_fragments (src : source) (h : heap (implementation src)) (this : loc)
    (map : Fragment.fragments) (K : Kind) (text : string) :
  fragments_at (implementation src) h this = Some map ->
  exists h',
    method (implementation src) K this text h
    = (match fst (Kind.insert K text map) with
       | Normal _ => Normal this
       | Throw e => Throw e
       end, h')
    /\ (snd (Kind.insert K text map) = map -> h' = h).
Proof.
  destruct src; cbn [implementation fragments_at tasks05 part000].
  - cbn in h. destruct (h !! this) as [o|] eqn:Ho;
      cbn [fmap option_fmap option_map]; [| discriminate]. intros [= <-].
    exists (<[this := Tasks05.set_map (snd (Kind.insert K text (Tasks05.map o))) o]> h).
    rewrite Tasks05_method.
    unfold mbind, Eff_bind. rewrite (Tasks05_on_map_run _ _ _ _ Ho).
    destruct (Kind.insert K text (Tasks05.map o)) as [[[]|e] m']; cbn [fst snd].
    all: split; [reflexivity |].
    all: intros ->; rewrite Tasks05_set_map_id; now apply list_insert_id.
  - cbn in h. destruct (h !! this) as [[m|]|] eqn:Ho; try discriminate. intros [= <-].
    exists (<[this := Part000.SelectorBuilder (snd (Kind.insert K text m))]> h).
    rewrite Part000_method.
    unfold mbind, Eff_bind. rewrite (Part000_on_map_run _ _ _ _ Ho).
    destruct (Kind.insert K text m) as [[[]|e] m']; cbn [fst snd].
    all: split; [reflexivity |].
    all: intros ->; now apply list_insert_id.
Qed.

Lemma method_no_builder (src : source) (h : heap (implementation src)) (this : loc)
    (K : Kind) (text : string) :
  fragments_at (implementation src) h this = None ->
  method (implementation src) K this text h = (Throw TypeError, h).
Proof.
  destruct src; cbn [implementation fragments_at tasks05 part000].
  - cbn in h. destruct (h !! this) as [o|] eqn:Ho; [discriminate |]. intros _.
    rewrite Tasks05_method. apply bind_throw. unfold Tasks05.on_map. now rewrite Ho.
  - cbn in h. intros H. rewrite Part000_method. apply bind_throw. unfold Part000.on_map.
    destruct (h !! this) as [[m|]|]; try discriminate; reflexivity.
Qed.

(** A fragment method that throws on the Map throws the same error through
    the reference and leaves the heap as it was. *)
Lemma method_throw (src : source) (h : heap (implementation src)) (this : loc)
    (map : Fragment.fragments) (K : Kind) (text : string) (e : exn) :
  fragments_at (implementation src) h this = Some map ->
  Kind.insert K text map = (Throw e, map) ->
  method (implementation src) K this text h = (Throw e, h).
Proof.
  intros Hf Hi.
  destruct (method_fragments src h this map K text Hf) as (h' & Hm & Hh).
  rewrite Hi in Hm, Hh. cbn in Hm, Hh. now rewrite Hm, Hh.
Qed.

(** * The selector builder: fragments *)

(** [build] is the facade call for the first insertion followed by the
    chained calls for the others. *)
Lemma build_create (src : source) (K : Kind) (text : string) (ops : list (Kind * string))
    (h : heap (implementation src)) :
  build (implementation src) ((K, text) :: ops) h
  = (this ← create (implementation src) K text; chain (implementation src) this ops) h.
Proof.
  unfold build. cbn [chain].
  destruct src, K; cbn [implementation create method new_builder tasks05 part000];
    unfold Tasks05.cssSelectorBuilder.element, Tasks05.cssSelectorBuilder.id,
      Tasks05.cssSelectorBuilder.class, Tasks05.cssSelectorBuilder.attr,
      Tasks05.cssSelectorBuilder.pseudoClass, Tasks05.cssSelectorBuilder.pseudoElement,
      Part000.cssSelectorBuilder.element, Part000.cssSelectorBuilder.id,
      Part000.cssSelectorBuilder.class, Part000.cssSelectorBuilder.attr,
      Part000.cssSelectorBuilder.pseudoClass, Part000.cssSelectorBuilder.pseudoElement,
      mbind, Eff_bind;
    match goal with |- context [?new h] => destruct (new h) as [[this|e] h0] end;
    reflexivity.
Qed.

(** The examples of the header comment of both files. *)
Example header_example_id_class_class (src : source) :
  observations (implementation src) 1
    [Create Id "main"; Chain 0 Class "container"; Chain 0 Class "editable"; Stringify 0]
    (no_objects (implementation src))
  = Some [Returned_node 0; Returned_node 0; Returned_node 0;
          Returned_string "#main.container.editable"].
Proof. destruct src; reflexivity. Qed.

Example header_example_element_attr_pseudoClass (src : source) :
  observations (implementation src) 1
    [Create Type_ "a"; Chain 0 Attribute ("href$=" +:+ JSON.quote ".png");
     Chain 0 PseudoClass "focus"; Stringify 0]
    (no_objects (implementation src))
  = Some [Returned_node 0; Returned_node 0; Returned_node 0;
          Returned_string ("a[href$=" +:+ JSON.quote ".png" +:+ "]:focus")].
Proof. destruct src; reflexivity. Qed.

Example header_example_combine (src : source) :
  observations (implementation src) 4
    [Create Type_ "div"; Chain 0 Id "main"; Chain 0 Class "container";
     Chain 0 Class "draggable";
     Create Type_ "table"; Chain 1 Id "data";
     Create Type_ "tr"; Chain 2 PseudoClass "nth-of-type(even)";
     Create Type_ "td"; Chain 3 PseudoClass "nth-of-type(even)";
     Combine 2 " " 3; Combine 1 "~" 4; Combine 0 "+" 5; Stringify 6]
    (no_objects (implementation src))
  = Some [Returned_node 0; Returned_node 0; Returned_node 0; Returned_node 0;
          Returned_node 1; Returned_node 1;
          Returned_node 2; Returned_node 2;
          Returned_node 3; Returned_node 3;
          Returned_node 4; Returned_node 5; Returned_node 6;
          Returned_string
            "div#main.container.draggable + table#data ~ tr:nth-of-type(even)   td:nth-of-type(even)"].
Proof. destruct src; reflexivity. Qed.

(** C1. For every sequence of fragment insertions on one fresh builder that
    all return, in either file, [stringify] (with any fuel but none) returns
    the fragments' sigil-prefixed texts concatenated kind by kind in the
    order Type, Id, Class, Attribute, PseudoClass, PseudoElement, the texts
    of one kind in insertion order, nothing for a missing kind and no
    separators; and it leaves the heap as it was. *)
Theorem stringify_renders_in_kind_order (src : source) (ops : list (Kind * string))
    (h h' : heap (implementation src)) (this : loc) (fuel : nat) :
  build (implementation src) ops h = (Normal this, h') ->
  stringify (implementation src) (S fuel) this h'
  = Some (Normal (expected_rendering ops), h').
Proof.
  intros H. unfold build in H.
  apply bind_inv_normal in H as (this0 & h0 & Hn & Hc).
  apply new_builder_simple in Hn.
  apply (chain_simple src ops h0 h' this0 this JsMap.empty Hn) in Hc
    as (-> & map' & Hi & Hs).
  rewrite (stringify_simple src h' this0 map' fuel Hs).
  now rewrite (stringify_insert_all ops map' Hi).
Qed.

Lemma stringify_renders_in_kind_order_witness :
  let ops := [(Id, "main"); (Class, "container"); (Class, "editable")] in
  (build tasks05 ops [] = (Normal 0, snd (build tasks05 ops []))
   /\ stringify tasks05 1 0 (snd (build tasks05 ops []))
      = Some (Normal "#main.container.editable", snd (build tasks05 ops [])))
  /\ (build part000 ops [] = (Normal 0, snd (build part000 ops []))
      /\ stringify part000 1 0 (snd (build part000 ops []))
         = Some (Normal "#main.container.editable", snd (build part000 ops []))).
Proof.
  intros ops. split; (split; [reflexivity |]).
  - apply (stringify_renders_in_kind_order Tasks05_js ops [] _ 0 0). reflexivity.
  - apply (stringify_renders_in_kind_order Part000_js ops [] _ 0 0). reflexivity.
Defined.

(** C3, as the code has it.  On a builder whose Map holds a fragment of a
    kind strictly after K, inserting a fragment of kind K throws and changes
    nothing.  The error is OrderViolationError, unless K is Type or Id and
    the builder already carries a fragment of kind K: the duplicate check
    runs before the order check, and the error is DuplicateFragmentError.
    In particular it is OrderViolationError whenever no fragment of kind K
    has been inserted yet. *)
Theorem insert_before_later_kind_throws (src : source) (h : heap (implementation src))
    (this : loc) (map : Fragment.fragments) (K K' : Kind) (text : string) :
  fragments_at (implementation src) h this = Some map ->
  Kind.rank K < Kind.rank K' ->
  JsMap.has map (Kind.key K') = true ->
  method (implementation src) K this text h
  = (Throw (if negb (Kind.repeatable K) && JsMap.has map (Kind.key K)
            then Fragment.DuplicateFragmentError
            else Fragment.OrderViolationError), h).
Proof.
  intros Hf Hlt Hk. apply (method_throw src h this map K text _ Hf).
  now apply insert_order_violation with K'.
Qed.

Lemma insert_before_later_kind_throws_witness :
  let h := snd (build part000 [(Class, "container")] []) in
  fragments_at part000 h 0 = Some [("CLASS", Arr [".container"])]
  /\ method part000 Id 0 "main" h = (Throw Fragment.OrderViolationError, h).
Proof.
  intros h. split; [reflexivity |].
  apply (insert_before_later_kind_throws Part000_js h 0
           [("CLASS", Arr [".container"])] Id Class "main");
    [reflexivity | cbn; lia | reflexivity].
Defined.

(** C3 as stated fails: after [element('div').id('main')] the Map holds a
    fragment of kind Id, strictly after Type, and a further [element('p')]
    throws DuplicateFragmentError, not OrderViolationError; in both files. *)
Lemma element_after_element_and_id_throws_duplicate :
  let ops := [(Type_, "div"); (Id, "main")] in
  let map := [("TAG", Str "div"); ("ID", Str "#main")] in
  (Kind.rank Type_ < Kind.rank Id /\ JsMap.has map (Kind.key Id) = true)
  /\ (forall src,
        let h := snd (build (implementation src) ops (no_objects (implementation src))) in
        fragments_at (implementation src) h 0 = Some map
        /\ fst (method (implementation src) Type_ 0 "p" h)
           = Throw Fragment.DuplicateFragmentError)
  /\ Fragment.DuplicateFragmentError <> Fragment.OrderViolationError.
Proof.
  intros ops map. split; [split; [cbn; lia | reflexivity] |]. split.
  - intros []; split; reflexivity.
  - discriminate.
Qed.

(** C4. On a builder that already carries a Type, Id or PseudoElement
    fragment, a further [element], [id] or [pseudoElement] throws
    DuplicateFragmentError, whatever else the Map holds, and changes
    nothing; in both files. *)
Theorem second_singleton_throws_duplicate (src : source) (h : heap (implementation src))
    (this : loc) (map : Fragment.fragments) (K : Kind) (text : string) :
  fragments_at (implementation src) h this = Some map ->
  Kind.repeatable K = false ->
  JsMap.has map (Kind.key K) = true ->
  method (implementation src) K this text h = (Throw Fragment.DuplicateFragmentError, h).
Proof.
  intros Hf Hr Hk. apply (method_throw src h this map K text _ Hf).
  now apply insert_duplicate.
Qed.

Lemma second_singleton_throws_duplicate_witness :
  let h := snd (build tasks05 [(Type_, "a"); (Attribute, "href"); (PseudoElement, "after")] []) in
  method tasks05 PseudoElement 0 "before" h = (Throw Fragment.DuplicateFragmentError, h).
Proof.
  intros h.
  apply (second_singleton_throws_duplicate Tasks05_js h 0
           [("TAG", Str "a"); ("ATTRIBUTE", Arr ["[href]"]); ("PSEUDO-ELEMENT", Str "::after")]
           PseudoElement "before"); reflexivity.
Defined.

(** C7. A fragment method that throws, in either file and whatever the
    error, leaves the whole heap, and with it the builder's Map, exactly as
    it was before the call. *)
Theorem failing_insertion_changes_nothing (src : source) (h h' : heap (implementation src))
    (this : loc) (K : Kind) (text : string) (e : exn) :
  method (implementation src) K this text h = (Throw e, h') ->
  h' = h.
Proof.
  intros H.
  destruct (fragments_at (implementation src) h this) as [map|] eqn:Hf.
  - destruct (method_fragments src h this map K text Hf) as (h1 & Hm & Hh).
    rewrite Hm in H.
    destruct (Kind.insert K text map) as [[[]|e'] m'] eqn:E; cbn [fst snd] in *;
      [discriminate |].
    injection H as _ <-. apply Hh. now apply insert_throw_state in E.
  - rewrite method_no_builder in H by exact Hf. now injection H as _ <-.
Qed.

Lemma failing_insertion_changes_nothing_witness :
  let h := snd (build tasks05 [(Class, "container")] []) in
  snd (method tasks05 Id 0 "main" h) = h.
Proof.
  intros h.
  apply (failing_insertion_changes_nothing Tasks05_js h _ 0 Id "main"
           Fragment.OrderViolationError).
  reflexivity.
Defined.

(** A sequence of insertions in a valid order builds, in either file, and
    the builder renders as the specification says. *)
Lemma valid_order_builds (src : source) (ops : list (Kind * string))
    (h : heap (implementation src)) (fuel : nat) :
  valid_order ops = true ->
  exists this h',
    build (implementation src) ops h = (Normal this, h')
    /\ stringify (implementation src) (S fuel) this h'
       = Some (Normal (expected_rendering ops), h').
Proof.
  intros Hv.
  assert (exists map', insert_all ops JsMap.empty = (Normal tt, map')) as [map' Hi].
  { apply (insert_all_returns ops (fun _ => [])); [intros K _; cbn; lia | exact Hv |].
    destruct ops as [|[K t] ops]; [exact I | now split]. }
  destruct (new_builder (implementation src) h) as [r h0] eqn:Hn.
  assert (exists this, r = Normal this) as [this ->]
    by (destruct src; cbn in Hn; injection Hn as <- _; now eexists).
  pose proof (new_builder_simple src h h0 this Hn) as Hs.
  assert (Hc : exists h', chain (implementation src) this ops h0 = (Normal this, h')).
  { clear Hn Hv. revert h0 Hs map' Hi. generalize (@JsMap.empty MapValue) as map.
    induction ops as [|[K t] ops IH]; intros map h0 Hs map' Hi.
    - now eexists.
    - cbn [insert_all] in Hi. apply bind_inv_normal in Hi as ([] & m1 & H1 & H2).
      destruct (method_simple src h0 this map K t Hs) as (h1 & Hm & Hs1 & _).
      rewrite H1 in Hm, Hs1. cbn [fst snd] in Hm, Hs1.
      destruct (IH m1 h1 Hs1 map' H2) as [h' Hc].
      exists h'. cbn [chain]. erewrite bind_normal by exact Hm. exact Hc. }
  destruct Hc as [h' Hc]. exists this, h'.
  assert (Hb : build (implementation src) ops h = (Normal this, h')).
  { unfold build. erewrite bind_normal by exact Hn. exact Hc. }
  split; [exact Hb |].
  destruct (chain_simple src ops h0 h' this this JsMap.empty Hs Hc)
    as (_ & map'' & Hi' & Hs').
  rewrite (stringify_simple src h' this map'' fuel Hs').
  now rewrite (stringify_insert_all ops map'' Hi').
Qed.

(** * The selector builder: rendering and combinations *)

(** ** part_000: [stringify] only reads *)

Lemma Part000_stringify_heap (fuel : nat) (this : loc) (h h' : Part000.heap)
    (r : completion string) :
  Part000.stringify fuel this h = Some (r, h') -> h' = h.
Proof.
  revert this h h' r. induction fuel as [|fuel IH]; intros this h h' r H;
    [discriminate |].
  cbn [Part000.stringify] in H.
  unfold mbind, mret, Run_bind, Run_ret, lift, Part000.read in H.
  destruct (h !! this) as [[m|s1 c s2]|]; [congruence | | congruence].
  destruct (Part000.stringify fuel s1 h) as [[[a|e] h1]|] eqn:E1; [| | discriminate].
  - apply IH in E1 as ->.
    destruct (Part000.stringify fuel s2 h) as [[[b|e] h2]|] eqn:E2; [| | discriminate].
    + apply IH in E2 as ->. congruence.
    + apply IH in E2 as ->. congruence.
  - apply IH in E1 as ->. congruence.
Qed.

(** Repeated calls return what the first call returned. *)
Lemma Part000_stringify_repeatable (fuel : nat) (this : loc) (h h' : Part000.heap)
    (r : completion string) :
  Part000.stringify fuel this h = Some (r, h') ->
  Part000.stringify fuel this h' = Some (r, h').
Proof. intros H. pose proof (Part000_stringify_heap _ _ _ _ _ H) as ->. exact H. Qed.

Lemma Part000_stringify_S (fuel : nat) (this : loc) (h : Part000.heap) :
  Part000.stringify (S fuel) this h
  = match h !! this with
    | Some (Part000.SelectorBuilder _map) => Some (Normal (Fragment.stringify _map), h)
    | Some (Part000.CombineSelectorBuilder s1 c s2) =>
        match Part000.stringify fuel s1 h with
        | Some (Normal a, h1) =>
            match Part000.stringify fuel s2 h1 with
            | Some (Normal b, h2) => Some (Normal (a +:+ " " +:+ c +:+ " " +:+ b), h2)
            | Some (Throw e, h2) => Some (Throw e, h2)
            | None => None
            end
        | Some (Throw e, h1) => Some (Throw e, h1)
        | None => None
        end
    | None => Some (Throw TypeError, h)
    end.
Proof.
  cbn [Part000.stringify]. unfold mbind, mret, Run_bind, Run_ret, lift, Part000.read.
  now destruct (h !! this) as [[m|s1 c s2]|].
Qed.

Lemma Part000_stringify_more_fuel (fuel : nat) (this : loc) (h : Part000.heap)
    (res : completion string * Part000.heap) :
  Part000.stringify fuel this h = Some res ->
  Part000.stringify (S fuel) this h = Some res.
Proof.
  revert this res. induction fuel as [|fuel IH]; intros this res H; [discriminate |].
  rewrite Part000_stringify_S in H. rewrite Part000_stringify_S.
  destruct (h !! this) as [[m|s1 c s2]|]; try exact H.
  destruct (Part000.stringify fuel s1 h) as [[[a|e] h1]|] eqn:E1; [| | discriminate].
  - rewrite (IH _ _ E1). pose proof (Part000_stringify_heap _ _ _ _ _ E1) as ->.
    destruct (Part000.stringify fuel s2 h) as [[[b|e] h2]|] eqn:E2; [| | discriminate].
    + now rewrite (IH _ _ E2).
    + now rewrite (IH _ _ E2).
  - now rewrite (IH _ _ E1).
Qed.

(** On a heap built through the facade, [stringify] with fuel above the
    reference returns (a string or an error), and the heap is as it was. *)
Lemma Part000_stringify_returns (h : Part000.heap) (this : loc) :
  children_before h ->
  exists r, Part000.stringify (S this) this h = Some (r, h).
Proof.
  intros Hw. induction this as [this IH] using lt_wf_ind.
  rewrite Part000_stringify_S.
  destruct (h !! this) as [[m|s1 c s2]|] eqn:Ho; [eexists; reflexivity | | eexists; reflexivity].
  destruct (Hw _ _ _ _ Ho) as [H1 H2].
  assert (Hfuel : forall s, s < this -> exists r, Part000.stringify this s h = Some (r, h)).
  { intros s Hs. destruct (IH s Hs) as [r Hr]. exists r.
    clear - Hr Hs. induction Hs as [|n Hs IHs]; [exact Hr |].
    now apply Part000_stringify_more_fuel. }
  destruct (Hfuel s1 H1) as [[a|e] ->]; [| eexists; reflexivity].
  destruct (Hfuel s2 H2) as [[b|e] ->]; eexists; reflexivity.
Qed.

(** What a rendering returned on a heap it returns on any extension of it. *)
Lemma Part000_stringify_extend (fuel : nat) (this : loc) (h ext : Part000.heap) (a : string) :
  Part000.stringify fuel this h = Some (Normal a, h) ->
  Part000.stringify fuel this (h ++ ext) = Some (Normal a, h ++ ext).
Proof.
  revert this a. induction fuel as [|fuel IH]; intros this a H; [discriminate |].
  rewrite Part000_stringify_S in H. rewrite Part000_stringify_S.
  destruct (h !! this) as [[m|s1 c s2]|] eqn:Ho; [| | discriminate].
  - rewrite (lookup_app_l_Some _ _ _ _ Ho). congruence.
  - rewrite (lookup_app_l_Some _ _ _ _ Ho).
    destruct (Part000.stringify fuel s1 h) as [[[a1|e] h1]|] eqn:E1; try discriminate.
    pose proof (Part000_stringify_heap _ _ _ _ _ E1) as ->.
    rewrite (IH _ _ E1).
    destruct (Part000.stringify fuel s2 h) as [[[a2|e] h2]|] eqn:E2; try discriminate.
    pose proof (Part000_stringify_heap _ _ _ _ _ E2) as ->.
    rewrite (IH _ _ E2). congruence.
Qed.

(** part_000 renders a combination as the claim C5 has it: for any two
    nodes, shared or not, that render to [a] and [b], the node
    [combine(s1, c, s2)] renders to [a], a space, [c], a space, [b]. *)
Lemma Part000_combine_stringify (fuel : nat) (s1 s2 this : loc) (c a b : string)
    (h h' : Part000.heap) :
  Part000.stringify fuel s1 h = Some (Normal a, h) ->
  Part000.stringify fuel s2 h = Some (Normal b, h) ->
  Part000.cssSelectorBuilder.combine s1 c s2 h = (Normal this, h') ->
  Part000.stringify (S fuel) this h' = Some (Normal (a +:+ " " +:+ c +:+ " " +:+ b), h').
Proof.
  intros H1 H2 [= <- <-]. rewrite Part000_stringify_S.
  rewrite list_lookup_middle by reflexivity.
  rewrite (Part000_stringify_extend _ _ _ _ _ H1).
  now rewrite (Part000_stringify_extend _ _ _ _ _ H2).
Qed.

(** The facade of part_000 keeps children allocated before their parent. *)
Lemma children_before_new_SelectorBuilder (h h' : Part000.heap) (this : loc) :
  children_before h ->
  Part000.new_SelectorBuilder h = (Normal this, h') ->
  children_before h'.
Proof.
  intros Hw [= <- <-] l s1 c s2 Hl.
  apply lookup_snoc_Some in Hl as [[_ Hl]|[_ Hl]]; [now apply Hw in Hl | discriminate].
Qed.

Lemma children_before_combine (h h' : Part000.heap) (s1 s2 this : loc) (c : string) :
  children_before h ->
  s1 < length h -> s2 < length h ->
  Part000.cssSelectorBuilder.combine s1 c s2 h = (Normal this, h') ->
  children_before h'.
Proof.
  intros Hw L1 L2 [= <- <-] l t1 c' t2 Hl.
  apply lookup_snoc_Some in Hl as [[_ Hl]|[-> Hl]]; [now apply Hw in Hl |].
  injection Hl as <- <- <-. now split.
Qed.

Lemma children_before_on_map {A} (h h' : Part000.heap) (this : loc)
    (m : Eff Fragment.fragments A) (r : completion A) :
  children_before h ->
  Part000.on_map this m h = (r, h') ->
  children_before h'.
Proof.
  intros Hw H. unfold Part000.on_map in H.
  destruct (h !! this) as [[map|]|] eqn:Ho; try (injection H as _ <-; exact Hw).
  destruct (m map) as [r' map']. injection H as _ <-.
  intros l s1 c s2 Hl. destruct (decide (this = l)) as [<-|Hne].
  - rewrite list_lookup_insert_eq in Hl by now apply lookup_lt_Some in Ho. discriminate.
  - rewrite list_lookup_insert_ne in Hl by exact Hne. now apply Hw in Hl.
Qed.

(** ** 05-objects-tasks.js: what [stringify] of a combination returns *)

Lemma Tasks05_stringify_S (fuel : nat) (this : loc) (h : Tasks05.heap) :
  Tasks05.stringify (S fuel) this h
  = match h !! this with
    | None => Some (Throw TypeError, h)
    | Some o =>
        if Tasks05.combineSelector o then
          let h0 := <[this := Tasks05.set_combineSelector false o]> h in
          match Tasks05.selector1 o with
          | None => Some (Throw TypeError, h0)
          | Some s1 =>
              match Tasks05.stringify fuel s1 h0 with
              | Some (Normal a, h1) =>
                  match h1 !! this with
                  | None => Some (Throw TypeError, h1)
                  | Some o' =>
                      match Tasks05.selector2 o' with
                      | None => Some (Throw TypeError, h1)
                      | Some s2 =>
                          match Tasks05.stringify fuel s2 h1 with
                          | Some (Normal b, h2) =>
                              Some (Normal (a +:+ " " +:+ Tasks05.text_of (Tasks05.combinator o')
                                            +:+ " " +:+ b), h2)
                          | Some (Throw e, h2) => Some (Throw e, h2)
                          | None => None
                          end
                      end
                  end
              | Some (Throw e, h1) => Some (Throw e, h1)
              | None => None
              end
          end
        else Some (Normal (Fragment.stringify (Tasks05.map o)), h)
    end.
Proof.
  cbn [Tasks05.stringify].
  unfold Tasks05.target, Tasks05.read, Tasks05.write, lift, throw.
  unfold mbind, mret, Run_bind, Run_ret.
  destruct (h !! this) as [o|]; [| reflexivity].
  destruct (Tasks05.combineSelector o); [| reflexivity].
  destruct (Tasks05.selector1 o) as [s1|]; [| reflexivity].
  destruct (Tasks05.stringify fuel s1 _) as [[[a|e] h1]|]; try reflexivity.
  destruct (h1 !! this) as [o'|]; [| reflexivity].
  destruct (Tasks05.selector2 o') as [s2|]; reflexivity.
Qed.

(** [stringify] allocates nothing. *)
Lemma Tasks05_stringify_length (fuel : nat) (this : loc) (h h' : Tasks05.heap)
    (r : completion string) :
  Tasks05.stringify fuel this h = Some (r, h') -> length h' = length h.
Proof.
  revert this h h' r. induction fuel as [|fuel IH]; intros this h h' r H;
    [discriminate |].
  rewrite Tasks05_stringify_S in H.
  destruct (h !! this) as [o|]; [| congruence].
  destruct (Tasks05.combineSelector o); [| congruence]. cbn zeta in H.
  assert (L0 : length (<[this := Tasks05.set_combineSelector false o]> h) = length h)
    by apply length_insert.
  destruct (Tasks05.selector1 o) as [s1|]; [| congruence].
  destruct (Tasks05.stringify fuel s1 _) as [[[a|e] h1]|] eqn:E1; [| | discriminate].
  - apply IH in E1.
    destruct (h1 !! this) as [o'|]; [| congruence].
    destruct (Tasks05.selector2 o') as [s2|]; [| congruence].
    destruct (Tasks05.stringify fuel s2 h1) as [[[b|e] h2]|] eqn:E2; [| | discriminate];
      apply IH in E2; congruence.
  - apply IH in E1. congruence.
Qed.

(** What a rendering returned on a heap it returns on any extension of it,
    with the same effect on the heap. *)
Lemma Tasks05_stringify_extend (fuel : nat) (this : loc) (h h' ext : Tasks05.heap)
    (a : string) :
  Tasks05.stringify fuel this h = Some (Normal a, h') ->
  Tasks05.stringify fuel this (h ++ ext) = Some (Normal a, h' ++ ext).
Proof.
  revert this h h' a. induction fuel as [|fuel IH]; intros this h h' a H;
    [discriminate |].
  rewrite Tasks05_stringify_S in H. rewrite Tasks05_stringify_S.
  destruct (h !! this) as [o|] eqn:Ho; [| discriminate].
  rewrite (lookup_app_l_Some _ _ _ _ Ho).
  destruct (Tasks05.combineSelector o); [| congruence]. cbn zeta in *.
  rewrite insert_app_l by now apply lookup_lt_Some in Ho.
  destruct (Tasks05.selector1 o) as [s1|]; [| discriminate].
  destruct (Tasks05.stringify fuel s1 _) as [[[a1|e] h1]|] eqn:E1; try discriminate.
  rewrite (IH _ _ _ _ E1).
  destruct (h1 !! this) as [o'|] eqn:Ho'; [| discriminate].
  rewrite (lookup_app_l_Some _ _ _ _ Ho').
  destruct (Tasks05.selector2 o') as [s2|]; [| discriminate].
  destruct (Tasks05.stringify fuel s2 h1) as [[[a2|e] h2]|] eqn:E2; try discriminate.
  rewrite (IH _ _ _ _ E2). congruence.
Qed.

Lemma Tasks05_combine_run (s1 s2 : loc) (c : string) (h : Tasks05.heap) :
  Tasks05.cssSelectorBuilder.combine s1 c s2 h
  = (Normal (length h),
     h ++ [Tasks05.mkSelectorBuilder [] true (Some s1) (Some c) (Some s2)]).
Proof.
  unfold Tasks05.cssSelectorBuilder.combine, Tasks05.combine, Tasks05.new, Tasks05.read,
    Tasks05.write, mbind, mret, Eff_bind, Eff_ret.
  rewrite list_lookup_middle by reflexivity. f_equal.
  replace (length h) with (length h + 0) at 1 by lia. now rewrite insert_app_r.
Qed.

(** In 05-objects-tasks.js the text of [combine(s1, c, s2)] is what [s1]
    renders to, a space, [c], a space, and what [s2] renders to in the heap
    that the rendering of [s1] has left. *)
Lemma Tasks05_combine_stringify (fuel : nat) (s1 s2 this : loc) (c a b : string)
    (h h1 h2 hc : Tasks05.heap) :
  Tasks05.stringify fuel s1 h = Some (Normal a, h1) ->
  Tasks05.stringify fuel s2 h1 = Some (Normal b, h2) ->
  Tasks05.cssSelectorBuilder.combine s1 c s2 h = (Normal this, hc) ->
  exists h3,
    Tasks05.stringify (S fuel) this hc
    = Some (Normal (a +:+ " " +:+ c +:+ " " +:+ b), h3).
Proof.
  intros H1 H2 Hc. rewrite Tasks05_combine_run in Hc. injection Hc as <- <-.
  set (o := Tasks05.mkSelectorBuilder [] false (Some s1) (Some c) (Some s2)).
  exists (h2 ++ [o]).
  rewrite Tasks05_stringify_S. rewrite list_lookup_middle by reflexivity.
  cbn [Tasks05.combineSelector Tasks05.selector1]. cbn zeta.
  replace (length h) with (length h + 0) at 1 by lia. rewrite insert_app_r.
  cbn [insert list_insert].
  change (Tasks05.set_combineSelector false
            (Tasks05.mkSelectorBuilder [] true (Some s1) (Some c) (Some s2))) with o.
  rewrite (Tasks05_stringify_extend _ _ _ _ [o] _ H1).
  rewrite list_lookup_middle by (symmetry; eapply Tasks05_stringify_length; exact H1).
  cbn [Tasks05.selector2 o]. rewrite (Tasks05_stringify_extend _ _ _ _ [o] _ H2).
  reflexivity.
Qed.

(** Clearing a set flag leaves one combined object less. *)
Lemma combined_clear (h : Tasks05.heap) (this : loc) (o : Tasks05.SelectorBuilder) :
  h !! this = Some o ->
  Tasks05.combineSelector o = true ->
  S (combined (<[this := Tasks05.set_combineSelector false o]> h)) = combined h.
Proof.
  intros Ho Hc. unfold combined.
  rewrite insert_take_drop by now apply lookup_lt_Some in Ho.
  rewrite <- (take_drop_middle h this o Ho) at 3.
  rewrite !List.filter_app, !length_app. cbn [List.filter Tasks05.set_combineSelector
    Tasks05.combineSelector]. rewrite Hc. cbn [length]. lia.
Qed.

(** In 05-objects-tasks.js [stringify] returns on every heap, cyclic ones
    included, with fuel above the number of combined objects: each level of
    the recursion clears a flag before it descends. *)
Lemma Tasks05_stringify_returns (fuel : nat) (h : Tasks05.heap) (this : loc) :
  combined h < fuel ->
  exists r h', Tasks05.stringify fuel this h = Some (r, h') /\ combined h' <= combined h.
Proof.
  revert h this. induction fuel as [|fuel IH]; intros h this Hfuel; [lia |].
  rewrite Tasks05_stringify_S.
  destruct (h !! this) as [o|] eqn:Ho; [| now eexists _, _].
  destruct (Tasks05.combineSelector o) eqn:Hc; [| now eexists _, _]. cbn zeta.
  pose proof (combined_clear h this o Ho Hc) as Hclear.
  set (h0 := <[this := Tasks05.set_combineSelector false o]> h) in *.
  destruct (Tasks05.selector1 o) as [s1|]; [| eexists _, _; split; [reflexivity | lia]].
  destruct (IH h0 s1 ltac:(lia)) as ([a|e] & h1 & -> & H1);
    [| eexists _, _; split; [reflexivity | lia]].
  destruct (h1 !! this) as [o'|]; [| eexists _, _; split; [reflexivity | lia]].
  destruct (Tasks05.selector2 o') as [s2|]; [| eexists _, _; split; [reflexivity | lia]].
  destruct (IH h1 s2 ltac:(lia)) as ([b|e] & h2 & -> & H2);
    eexists _, _; (split; [reflexivity | lia]).
Qed.

(** C2, at the input where 05-objects-tasks.js breaks it.
    [c = combine(element('a'), '+', element('b'))] is node 2 of the heap
    [h].  The first [c.stringify()] returns 'a + b' and clears
    [c.combineSelector], so the heap is not what it was; the second call
    takes the Map branch and returns the empty string. *)
Theorem Tasks05_stringify_clears_combineSelector :
  let h := [Tasks05.mkSelectorBuilder [("TAG", Str "a")] false None None None;
            Tasks05.mkSelectorBuilder [("TAG", Str "b")] false None None None;
            Tasks05.mkSelectorBuilder [] true (Some 0) (Some "+") (Some 1)] in
  let h1 := <[2 := Tasks05.mkSelectorBuilder [] false (Some 0) (Some "+") (Some 1)]> h in
  (a ← Tasks05.cssSelectorBuilder.element "a";
   b ← Tasks05.cssSelectorBuilder.element "b";
   Tasks05.cssSelectorBuilder.combine a "+" b) [] = (Normal 2, h)
  /\ h1 <> h
  /\ forall fuel,
       Tasks05.stringify (S (S fuel)) 2 h = Some (Normal "a + b", h1)
       /\ Tasks05.stringify (S (S fuel)) 2 h1 = Some (Normal "", h1).
Proof.
  intros h h1. repeat split; try reflexivity. discriminate.
Qed.

(** For any two nodes [s1] and [s2], simple or combined at any depth, and
    any string [c], in either file: whenever
    [s1.stringify() + ' ' + c + ' ' + s2.stringify()] evaluates to a string,
    [combine(s1, c, s2).stringify()], evaluated from the same heap and with
    one more unit of fuel, returns that string: the left rendering, a
    space, the symbol as it was given, a space, the right rendering. *)
Lemma combine_renders_left_symbol_right (src : source) (fuel : nat) (s1 s2 : loc)
    (c text : string) (h h2 : heap (implementation src)) :
  joined_renderings (implementation src) fuel s1 c s2 h = Some (Normal text, h2) ->
  exists h3,
    combined_rendering (implementation src) fuel s1 c s2 h = Some (Normal text, h3).
Proof.
  unfold joined_renderings, combined_rendering. intros H.
  unfold mbind, mret, Run_bind, Run_ret in H.
  destruct (stringify (implementation src) fuel s1 h) as [[[a|e] h1]|] eqn:E1;
    try discriminate.
  destruct (stringify (implementation src) fuel s2 h1) as [[[b|e] h2']|] eqn:E2;
    try discriminate.
  injection H as <- <-.
  unfold mbind, Run_bind, lift.
  destruct (combine (implementation src) s1 c s2 h) as [r hc] eqn:Ec.
  destruct src; cbn [implementation combine stringify tasks05 part000 heap] in *.
  - assert (r = Normal (length h)) as ->
      by (rewrite Tasks05_combine_run in Ec; now injection Ec as <- _).
    exact (Tasks05_combine_stringify fuel s1 s2 _ c a b h h1 h2' hc E1 E2 Ec).
  - assert (r = Normal (length h)) as -> by now injection Ec as <- _.
    pose proof (Part000_stringify_heap _ _ _ _ _ E1) as ->.
    pose proof (Part000_stringify_heap _ _ _ _ _ E2) as ->.
    exists hc. exact (Part000_combine_stringify fuel s1 s2 _ c a b h hc E1 E2 Ec).
Qed.

Lemma combine_renders_left_symbol_right_witness :
  let h := [Tasks05.mkSelectorBuilder [("TAG", Str "a")] false None None None;
            Tasks05.mkSelectorBuilder [("TAG", Str "b")] false None None None;
            Tasks05.mkSelectorBuilder [] true (Some 0) (Some ">") (Some 1);
            Tasks05.mkSelectorBuilder [("TAG", Str "c")] false None None None] in
  exists h3, combined_rendering tasks05 2 2 "+" 3 h = Some (Normal "a > b + c", h3).
Proof.
  intros h.
  apply (combine_renders_left_symbol_right Tasks05_js 2 2 3 "+" "a > b + c" h
           (<[2 := Tasks05.mkSelectorBuilder [] false (Some 0) (Some ">") (Some 1)]> h)).
  reflexivity.
Defined.

(** C5, where 05-objects-tasks.js departs from it.  With
    [A = combine(element('a'), '>', element('b'))] and [B = element('c')],
    the client evaluates
    [combine(A, '+', B).stringify() === A.stringify() + ' + ' + B.stringify()]:
    - in 05-objects-tasks.js the left side is 'a > b + c' and the right side
      is ' + c': rendering the combination cleared the flag of [A], and [A]
      then renders its own, empty, Map; the two sides differ;
    - in part_000 both sides are 'a > b + c'. *)
Theorem combine_equation_fails_on_combined_operand :
  let A := Combined (Simple Type_ "a" []) ">" (Simple Type_ "b" []) in
  let B := Simple Type_ "c" [] in
  forall fuel,
    (exists h,
        equation_sides tasks05 (2 + fuel) A "+" B (no_objects tasks05)
        = Some (Normal ("a > b + c", " + c"), h))
    /\ "a > b + c" <> " + c"
    /\ (exists h,
          equation_sides part000 (2 + fuel) A "+" B (no_objects part000)
          = Some (Normal ("a > b + c", "a > b + c"), h)).
Proof.
  intros A B fuel. split; [| split].
  - eexists. reflexivity.
  - discriminate.
  - eexists. reflexivity.
Qed.

(** What the cleared flag does to later renderings in 05-objects-tasks.js.
    [x = combine(element('a'), '>', element('b'))] renders to 'a > b'.
    - [combine(x, '+', x)] renders to 'a > b + ': rendering the left child
      cleared the flag of [x], and the right child renders as an empty
      builder.  part_000 returns 'a > b + a > b'.
    - [combine(x, '+', c).stringify()], then [x.stringify()] and
      [c.stringify()], return 'a > b + c', then the empty string and 'c'.
      part_000 returns 'a > b + c', 'a > b' and 'c'. *)
Lemma Tasks05_child_rendered_before :
  let shared := [Create Type_ "a"; Create Type_ "b"; Combine 0 ">" 1; Combine 2 "+" 2] in
  let equation :=
    [Create Type_ "a"; Create Type_ "b"; Combine 0 ">" 1; Create Type_ "c";
     Combine 2 "+" 3; Stringify 4; Stringify 2; Stringify 3] in
  forall fuel,
    (observations tasks05 (3 + fuel) (shared ++ [Stringify 2]) []
     = Some [Returned_node 0; Returned_node 1; Returned_node 2; Returned_node 3;
             Returned_string "a > b"]
     /\ observations tasks05 (3 + fuel) (shared ++ [Stringify 3]) []
        = Some [Returned_node 0; Returned_node 1; Returned_node 2; Returned_node 3;
                Returned_string "a > b + "]
     /\ observations part000 (3 + fuel) (shared ++ [Stringify 3]) []
        = Some [Returned_node 0; Returned_node 1; Returned_node 2; Returned_node 3;
                Returned_string "a > b + a > b"])
    /\ (observations tasks05 (3 + fuel) equation []
        = Some [Returned_node 0; Returned_node 1; Returned_node 2; Returned_node 3;
                Returned_node 4; Returned_string "a > b + c"; Returned_string "";
                Returned_string "c"]
        /\ observations part000 (3 + fuel) equation []
           = Some [Returned_node 0; Returned_node 1; Returned_node 2; Returned_node 3;
                   Returned_node 4; Returned_string "a > b + c"; Returned_string "a > b";
                   Returned_string "c"]).
Proof. intros shared equation fuel. repeat split; reflexivity. Qed.

(** C10, at a program on which the two files differ: a combined node
    rendered twice.  05-objects-tasks.js returns 'a + b' and then the empty
    string, part_000 returns 'a + b' both times. *)
Theorem implementations_differ_on_second_stringify :
  let program :=
    [Create Type_ "a"; Create Type_ "b"; Combine 0 "+" 1; Stringify 2; Stringify 2] in
  forall fuel,
    observations tasks05 (2 + fuel) program (no_objects tasks05)
    = Some [Returned_node 0; Returned_node 1; Returned_node 2;
            Returned_string "a + b"; Returned_string ""]
    /\ observations part000 (2 + fuel) program (no_objects part000)
       = Some [Returned_node 0; Returned_node 1; Returned_node 2;
               Returned_string "a + b"; Returned_string "a + b"]
    /\ observations tasks05 (2 + fuel) program (no_objects tasks05)
       <> observations part000 (2 + fuel) program (no_objects part000).
Proof. intros program fuel. repeat split; try reflexivity. discriminate. Qed.

(** * The selector builder: builders, expressions and programs *)

(** ** Which insertions return, and what a failing one throws *)

Lemma has_map_of (texts : Kind -> list string) (K : Kind) :
  JsMap.has (map_of texts) (Kind.key K) = match texts K with [] => false | _ => true end.
Proof.
  unfold map_of, Kind.all. cbn [flat_map].
  destruct K;
    destruct (texts Type_), (texts Id), (texts Class), (texts Attribute),
      (texts PseudoClass), (texts PseudoElement); reflexivity.
Qed.

Lemma insert_map_of_returns_inv (K : Kind) (text : string) (texts : Kind -> list string)
    (map' : Fragment.fragments) :
  Kind.insert K text (map_of texts) = (Normal tt, map') ->
  (forall K', Kind.rank K < Kind.rank K' -> texts K' = [])
  /\ (Kind.repeatable K = false -> texts K = []).
Proof.
  intros H. split.
  - intros K' Hlt. destruct (texts K') as [|t l] eqn:E; [reflexivity |]. exfalso.
    rewrite (insert_order_violation K K') in H; [discriminate | exact Hlt |].
    now rewrite has_map_of, E.
  - intros Hr. destruct (texts K) as [|t l] eqn:E; [reflexivity |]. exfalso.
    rewrite insert_duplicate in H; [discriminate | exact Hr |].
    now rewrite has_map_of, E.
Qed.

(** Insertions that all returned were made in a valid order. *)
Lemma insert_all_valid (ops : list (Kind * string)) (texts : Kind -> list string)
    (map' : Fragment.fragments) :
  singletons texts ->
  insert_all ops (map_of texts) = (Normal tt, map') ->
  valid_order ops = true
  /\ match ops with
     | [] => True
     | (K, _) :: _ =>
         (forall K', Kind.rank K < Kind.rank K' -> texts K' = [])
         /\ (Kind.repeatable K = false -> texts K = [])
     end.
Proof.
  revert texts. induction ops as [|[K text] ops IH]; intros texts Hs H; [now split |].
  cbn [insert_all] in H. apply bind_inv_normal in H as ([] & map1 & H1 & H2).
  pose proof (insert_map_of_returns_inv K text texts map1 H1) as Hhead.
  apply insert_map_of in H1 as [-> Hs1]; [| exact Hs].
  apply IH in H2 as [Hv Hnext]; [| exact Hs1].
  split; [| exact Hhead].
  cbn [valid_order]. destruct ops as [|[K2 t2] ops]; [reflexivity |].
  rewrite Hv, andb_true_r. destruct Hnext as [Hlater Hsame].
  assert (Hne : add_text texts K text K <> []).
  { unfold add_text. replace (Kind.eqb K K) with true by (now destruct K).
    now destruct (texts K). }
  destruct (Nat.ltb (Kind.rank K) (Kind.rank K2)) eqn:E; [reflexivity |]. cbn [orb].
  apply Nat.ltb_ge in E.
  destruct (Nat.eq_dec (Kind.rank K2) (Kind.rank K)) as [Heq | Hneq].
  - assert (K2 = K) as -> by (destruct K, K2; cbn in Heq; congruence).
    replace (Kind.eqb K K) with true by (now destruct K). cbn [andb].
    destruct (Kind.repeatable K) eqn:Hr; [reflexivity |]. now destruct Hne; apply Hsame.
  - destruct Hne. apply Hlater. lia.
Qed.

(** On a Map the methods have built, [setArrayValueToMap] finds an array
    or nothing: the only errors are the two of the checks. *)
Lemma insert_map_of_throw (K : Kind) (text : string) (texts : Kind -> list string)
    (map' : Fragment.fragments) (e : exn) :
  Kind.insert K text (map_of texts) = (Throw e, map') ->
  e = Fragment.DuplicateFragmentError \/ e = Fragment.OrderViolationError.
Proof.
  intros H. unfold map_of, Kind.all in H. cbn [flat_map] in H.
  destruct K;
    destruct (texts Type_) as [|? ?], (texts Id) as [|? ?], (texts Class) as [|? ?],
      (texts Attribute) as [|? ?], (texts PseudoClass) as [|? ?],
      (texts PseudoElement) as [|? ?];
    vm_compute in H; try discriminate H; injection H as <- _; auto.
Qed.

Lemma chain_map_of_throw (src : source) (ops : list (Kind * string))
    (h h' : heap (implementation src)) (this : loc) (texts : Kind -> list string) (e : exn) :
  singletons texts ->
  simple_at src h this (map_of texts) ->
  chain (implementation src) this ops h = (Throw e, h') ->
  e = Fragment.DuplicateFragmentError \/ e = Fragment.OrderViolationError.
Proof.
  revert h texts. induction ops as [|[K text] ops IH]; intros h texts Hsing Hs H;
    [discriminate |].
  cbn [chain] in H.
  destruct (method_simple src h this (map_of texts) K text Hs) as (h1 & Hm & Hs1 & _).
  destruct (Kind.insert K text (map_of texts)) as [[[]|e'] m1] eqn:E; cbn [fst snd] in *.
  - erewrite bind_normal in H by exact Hm.
    apply insert_map_of in E as [-> Hsing1]; [| exact Hsing].
    exact (IH _ _ Hsing1 Hs1 H).
  - erewrite bind_throw in H by exact Hm. injection H as <- _.
    exact (insert_map_of_throw _ _ _ _ _ E).
Qed.

Lemma build_throw_error (src : source) (ops : list (Kind * string))
    (h h' : heap (implementation src)) (e : exn) :
  build (implementation src) ops h = (Throw e, h') ->
  e = Fragment.DuplicateFragmentError \/ e = Fragment.OrderViolationError.
Proof.
  intros H. unfold build in H.
  destruct (new_builder (implementation src) h) as [r h0] eqn:Hn.
  assert (exists this, r = Normal this) as [this ->]
    by (destruct src; cbn in Hn; injection Hn as <- _; now eexists).
  erewrite bind_normal in H by exact Hn.
  apply new_builder_simple in Hn.
  change (@JsMap.empty MapValue) with (map_of (fun _ => [])) in Hn.
  apply (chain_map_of_throw src ops h0 h' this (fun _ => []) e); auto.
  intros K _. cbn. lia.
Qed.

(** ** The Map of a builder *)

Lemma simple_at_fragments (src : source) (h : heap (implementation src)) (this : loc)
    (map : Fragment.fragments) :
  simple_at src h this map -> fragments_at (implementation src) h this = Some map.
Proof.
  destruct src; cbn in h |- *.
  - intros (o & Ho & <- & _). now rewrite Ho.
  - intros Ho. now rewrite Ho.
Qed.

(** X1. The invariant of a builder's Map, in either file.  After a fresh
    builder has taken a sequence of insertions that all returned, its Map
    holds exactly one entry per kind that was inserted, the entries in the
    order Type, Id, Class, Attribute, PseudoClass, PseudoElement whatever
    the texts; the entry of Class, Attribute and PseudoClass is the array of
    the sigil-prefixed texts in insertion order, the entry of Type, Id and
    PseudoElement the one sigil-prefixed text, and each of these three kinds
    was inserted at most once. *)
Theorem build_map_one_entry_per_kind (src : source) (ops : list (Kind * string))
    (h h' : heap (implementation src)) (this : loc) :
  build (implementation src) ops h = (Normal this, h') ->
  fragments_at (implementation src) h' this = Some (map_of (fun K => texts_of K ops))
  /\ forall K, Kind.repeatable K = false -> length (texts_of K ops) <= 1.
Proof.
  intros H. unfold build in H.
  apply bind_inv_normal in H as (this0 & h0 & Hn & Hc).
  apply new_builder_simple in Hn.
  apply (chain_simple src ops h0 h' this0 this JsMap.empty Hn) in Hc
    as (-> & map' & Hi & Hs).
  apply insert_all_empty in Hi as [-> Hsing].
  split; [now apply simple_at_fragments | exact Hsing].
Qed.

Lemma build_map_one_entry_per_kind_witness :
  let ops := [(Id, "main"); (Class, "container"); (Class, "editable")] in
  fragments_at tasks05 (snd (build tasks05 ops [])) 0
  = Some [("ID", Str "#main"); ("CLASS", Arr [".container"; ".editable"])].
Proof.
  intros ops.
  apply (proj1 (build_map_one_entry_per_kind Tasks05_js ops [] _ 0 eq_refl)).
Defined.

(** ** A call touches the objects it is made on *)

Lemma Tasks05_method_frame (h h' : Tasks05.heap) (this : loc)
    (K : Kind) (text : string) (r : completion loc) :
  method tasks05 K this text h = (r, h') ->
  length h' = length h
  /\ (forall l, l <> this -> h' !! l = h !! l)
  /\ (forall node, r = Normal node -> node = this).
Proof.
  rewrite Tasks05_method. unfold mbind, mret, Eff_bind, Eff_ret, Tasks05.on_map.
  destruct (h !! this) as [o|]; [| intros [= <- <-]; repeat split; congruence].
  destruct (Kind.insert K text (Tasks05.map o)) as [[[]|e] m]; intros [= <- <-].
  all: split; [apply length_insert |]; split;
    [intros l Hl; now apply list_lookup_insert_ne | congruence].
Qed.

Lemma Part000_method_frame (h h' : Part000.heap) (this : loc)
    (K : Kind) (text : string) (r : completion loc) :
  method part000 K this text h = (r, h') ->
  length h' = length h
  /\ (forall l, l <> this -> h' !! l = h !! l)
  /\ (forall node, r = Normal node -> node = this).
Proof.
  rewrite Part000_method. unfold mbind, mret, Eff_bind, Eff_ret, Part000.on_map.
  destruct (h !! this) as [[map|s1 c s2]|]; try (intros [= <- <-]; repeat split; congruence).
  destruct (Kind.insert K text map) as [[[]|e] m]; intros [= <- <-].
  all: split; [apply length_insert |]; split;
    [intros l Hl; now apply list_lookup_insert_ne | congruence].
Qed.

Lemma Tasks05_chain_frame (ops : list (Kind * string)) (h h' : Tasks05.heap) (this : loc)
    (r : completion loc) :
  chain tasks05 this ops h = (r, h') ->
  length h' = length h /\ (forall l, l <> this -> h' !! l = h !! l).
Proof.
  revert h. induction ops as [|[K text] ops IH]; intros h H.
  - cbn in H. injection H as _ <-. now split.
  - cbn [chain] in H. unfold mbind, Eff_bind in H.
    destruct (method tasks05 K this text h) as [[node|e] h1] eqn:Hm;
      destruct (Tasks05_method_frame _ _ _ _ _ _ Hm) as (L & F & Hn).
    + rewrite (Hn node eq_refl) in H. apply IH in H as [L' F'].
      split; [congruence |]. intros l Hl. now rewrite F', F.
    + injection H as _ <-. now split.
Qed.

Lemma Part000_chain_frame (ops : list (Kind * string)) (h h' : Part000.heap) (this : loc)
    (r : completion loc) :
  chain part000 this ops h = (r, h') ->
  length h' = length h /\ (forall l, l <> this -> h' !! l = h !! l).
Proof.
  revert h. induction ops as [|[K text] ops IH]; intros h H.
  - cbn in H. injection H as _ <-. now split.
  - cbn [chain] in H. unfold mbind, Eff_bind in H.
    destruct (method part000 K this text h) as [[node|e] h1] eqn:Hm;
      destruct (Part000_method_frame _ _ _ _ _ _ Hm) as (L & F & Hn).
    + rewrite (Hn node eq_refl) in H. apply IH in H as [L' F'].
      split; [congruence |]. intros l Hl. now rewrite F', F.
    + injection H as _ <-. now split.
Qed.

(** A list that agrees with [h ++ ext] below [length h] and has its length
    is [h] followed by as many elements. *)
Lemma frame_prefix {A} (h ext h' : list A) :
  length h' = length (h ++ ext) ->
  (forall l, l < length h -> h' !! l = (h ++ ext) !! l) ->
  exists ext', h' = h ++ ext' /\ length ext' = length ext.
Proof.
  intros L F. exists (drop (length h) h'). rewrite length_app in L. split.
  - rewrite <- (take_drop (length h) h') at 1. f_equal.
    apply list_eq. intros l. destruct (decide (l < length h)) as [Hl|Hl].
    + rewrite lookup_take_lt by exact Hl. rewrite F by exact Hl. now apply lookup_app_l.
    + rewrite lookup_take_ge by lia. symmetry. apply lookup_ge_None. lia.
  - rewrite length_drop. lia.
Qed.

(** A fresh builder with its chained calls is one object more. *)
Lemma Tasks05_build_appends (ops : list (Kind * string)) (h h' : Tasks05.heap)
    (r : completion loc) :
  build tasks05 ops h = (r, h') -> exists o, h' = h ++ [o].
Proof.
  unfold build. intros H.
  erewrite bind_normal in H by reflexivity.
  apply Tasks05_chain_frame in H as [L F].
  destruct (frame_prefix h _ h' L) as (ext' & -> & L').
  - intros l Hl. apply F. lia.
  - destruct ext' as [|o [|? ?]]; try discriminate L'. now exists o.
Qed.

Lemma Part000_build_appends (ops : list (Kind * string)) (h h' : Part000.heap)
    (r : completion loc) :
  build part000 ops h = (r, h') -> exists o, h' = h ++ [o].
Proof.
  unfold build. intros H.
  erewrite bind_normal in H by reflexivity.
  apply Part000_chain_frame in H as [L F].
  destruct (frame_prefix h _ h' L) as (ext' & -> & L').
  - intros l Hl. apply F. lia.
  - destruct ext' as [|o [|? ?]]; try discriminate L'. now exists o.
Qed.

Lemma Tasks05_build_root (ops : list (Kind * string)) (h h' : Tasks05.heap) (this : loc) :
  build tasks05 ops h = (Normal this, h') -> this = length h.
Proof.
  unfold build. intros H. apply bind_inv_normal in H as (this0 & h0 & Hn & H).
  pose proof (new_builder_simple Tasks05_js _ _ _ Hn) as Hs.
  apply (chain_simple Tasks05_js ops _ h' _ this JsMap.empty Hs) in H as [-> _].
  now injection Hn as <- _.
Qed.

(** A builder that took its insertions is uncombined, and its Map renders
    to the fragments kind by kind. *)
Lemma build_simple (src : source) (ops : list (Kind * string))
    (h h' : heap (implementation src)) (this : loc) :
  build (implementation src) ops h = (Normal this, h') ->
  exists map', simple_at src h' this map' /\ Fragment.stringify map' = expected_rendering ops.
Proof.
  intros H. unfold build in H.
  apply bind_inv_normal in H as (this0 & h0 & Hn & H).
  apply new_builder_simple in Hn.
  apply (chain_simple src ops _ h' _ this JsMap.empty Hn) in H as (-> & map' & Hi & Hs).
  exists map'. split; [exact Hs |].
  now apply stringify_insert_all.
Qed.

(** ** The facade *)

Lemma Tasks05_create_run (K : Kind) (text : string) (h : Tasks05.heap) :
  exists map,
    create tasks05 K text h
    = (Normal (length h), h ++ [Tasks05.mkSelectorBuilder map false None None None]).
Proof.
  assert (H : forall m : Eff Fragment.fragments unit,
             (exists map, m [] = (Normal tt, map)) ->
             exists map,
               (this ← Tasks05.new; Tasks05.on_map this m;; mret this) h
               = (Normal (length h),
                  h ++ [Tasks05.mkSelectorBuilder map false None None None])).
  { intros m [map Hm]. exists map.
    unfold mbind, mret, Eff_bind, Eff_ret, Tasks05.new, Tasks05.on_map.
    rewrite list_lookup_middle by reflexivity.
    cbn [Tasks05.map]. unfold JsMap.empty. rewrite Hm.
    rewrite insert_app_r_alt by lia. now rewrite Nat.sub_diag. }
  destruct K; apply H; eexists; reflexivity.
Qed.

Lemma Part000_create_run (K : Kind) (text : string) (h : Part000.heap) :
  exists map, create part000 K text h = (Normal (length h), h ++ [Part000.SelectorBuilder map]).
Proof.
  assert (H : forall m : Eff Fragment.fragments unit,
             (exists map, m [] = (Normal tt, map)) ->
             exists map,
               (this ← Part000.new_SelectorBuilder; Part000.on_map this m;; mret this) h
               = (Normal (length h), h ++ [Part000.SelectorBuilder map])).
  { intros m [map Hm]. exists map.
    unfold mbind, mret, Eff_bind, Eff_ret, Part000.new_SelectorBuilder, Part000.on_map.
    rewrite list_lookup_middle by reflexivity. unfold JsMap.empty. rewrite Hm.
    rewrite insert_app_r_alt by lia. now rewrite Nat.sub_diag. }
  destruct K; apply H; eexists; reflexivity.
Qed.

Lemma sigil_rendering (K : Kind) (text : string) :
  expected_rendering [(K, text)] = Kind.sigil K text.
Proof.
  destruct K; unfold expected_rendering; cbn; now rewrite ?append_nil_r.
Qed.

Lemma create_is_build (src : source) (K : Kind) (text : string)
    (h : heap (implementation src)) :
  create (implementation src) K text h = build (implementation src) [(K, text)] h.
Proof.
  rewrite build_create. unfold mbind, Eff_bind. cbn [chain].
  now destruct (create (implementation src) K text h) as [[this|e] h'].
Qed.

(** X2. The calls of the facade never fail and share nothing, in either
    file.  [cssSelectorBuilder.element(text)], [.id(text)], ... and
    [cssSelectorBuilder.combine(s1, c, s2)], on any heap and with any
    arguments, return a reference to a new object, the heap has this one
    object more, and every object that existed is as it was; the new builder
    of a fragment call renders to the sigil-prefixed text. *)
Theorem facade_call_allocates_one_node (src : source) (h : heap (implementation src)) :
  (forall K text, exists h',
      create (implementation src) K text h = (Normal (objects src h), h')
      /\ objects src h' = S (objects src h)
      /\ (forall l, l < objects src h -> same_at src l h h')
      /\ forall fuel,
           stringify (implementation src) (S fuel) (objects src h) h'
           = Some (Normal (Kind.sigil K text), h'))
  /\ (forall s1 c s2, exists h',
        combine (implementation src) s1 c s2 h = (Normal (objects src h), h')
        /\ objects src h' = S (objects src h)
        /\ (forall l, l < objects src h -> same_at src l h h')).
Proof.
  split.
  - intros K text.
    destruct (create (implementation src) K text h) as [r h'] eqn:Hc. exists h'.
    assert (Hb := Hc). rewrite create_is_build in Hb.
    assert (Hr : r = Normal (objects src h)
                 /\ objects src h' = S (objects src h)
                 /\ (forall l, l < objects src h -> same_at src l h h')).
    { destruct src; cbn [implementation objects same_at] in *.
      - destruct (Tasks05_create_run K text h) as [map Hrun]. rewrite Hrun in Hc.
        injection Hc as <- <-. split; [reflexivity |]. split.
        + rewrite length_app. cbn. lia.
        + intros l Hl. now apply lookup_app_l.
      - destruct (Part000_create_run K text h) as [map Hrun]. rewrite Hrun in Hc.
        injection Hc as <- <-. split; [reflexivity |]. split.
        + rewrite length_app. cbn. lia.
        + intros l Hl. now apply lookup_app_l. }
    destruct Hr as (-> & L & F). repeat split; try assumption.
    intros fuel. apply build_simple in Hb as (map' & Hs & Hmap).
    rewrite (stringify_simple src h' _ map' fuel Hs), Hmap. now rewrite sigil_rendering.
  - intros s1 c s2. destruct src; cbn [implementation objects same_at combine tasks05 part000].
    + rewrite Tasks05_combine_run. eexists. split; [reflexivity |]. split.
      * rewrite length_app. cbn. lia.
      * intros l Hl. now apply lookup_app_l.
    + eexists. split; [reflexivity |]. split.
      * rewrite length_app. cbn. lia.
      * intros l Hl. now apply lookup_app_l.
Qed.

(** X3. A fragment method called through a reference, in either file and
    whether it returns or throws, allocates nothing and leaves every object
    but the one it was called on as it was; when it returns, it returns the
    reference it was called on, which is what makes the calls chain. *)
Theorem fragment_method_touches_only_this (src : source) (h h' : heap (implementation src))
    (this : loc) (K : Kind) (text : string) (r : completion loc) :
  method (implementation src) K this text h = (r, h') ->
  objects src h' = objects src h
  /\ (forall l, l <> this -> same_at src l h h')
  /\ (forall node, r = Normal node -> node = this).
Proof.
  destruct src; cbn [implementation objects same_at].
  - apply Tasks05_method_frame.
  - apply Part000_method_frame.
Qed.

Lemma fragment_method_touches_only_this_witness :
  let h := snd (build part000 [(Class, "container")] (snd (build part000 [(Type_, "a")] []))) in
  let h' := snd (method part000 Class 1 "editable" h) in
  method part000 Class 1 "editable" h = (Normal 1, h')
  /\ objects Part000_js h' = 2
  /\ h' !! 0 = Some (Part000.SelectorBuilder [("TAG", Str "a")]).
Proof.
  intros h h'.
  destruct (fragment_method_touches_only_this Part000_js h h' 1 Class "editable" (Normal 1)
              eq_refl) as (L & F & _).
  split; [reflexivity |]. split; [exact L |]. exact (F 0 ltac:(lia)).
Defined.

(** X4. What the node returned by [cssSelectorBuilder.combine] accepts.
    In part_000 it is a [CombineSelectorBuilder], which has [stringify] and
    no fragment method: [element], [id], [class], [attr], [pseudoClass] and
    [pseudoElement] on it throw a TypeError and change nothing.  In
    05-objects-tasks.js it is a [SelectorBuilder] like any other, and each
    of the six methods returns the node. *)
Theorem fragment_method_on_combined_node (src : source) (s1 s2 this : loc) (c text : string)
    (K : Kind) (h h' : heap (implementation src)) :
  combine (implementation src) s1 c s2 h = (Normal this, h') ->
  match src with
  | Tasks05_js => exists h'', method (implementation src) K this text h' = (Normal this, h'')
  | Part000_js => method (implementation src) K this text h' = (Throw TypeError, h')
  end.
Proof.
  destruct src; cbn [implementation combine tasks05 part000].
  - rewrite Tasks05_combine_run. intros [= <- <-]. rewrite Tasks05_method.
    unfold mbind, mret, Eff_bind, Eff_ret, Tasks05.on_map.
    rewrite list_lookup_middle by reflexivity. cbn [Tasks05.map].
    destruct K; eexists; reflexivity.
  - intros [= <- <-]. apply (method_no_builder Part000_js).
    cbn [implementation fragments_at part000].
    now rewrite list_lookup_middle by reflexivity.
Qed.

Lemma fragment_method_on_combined_node_witness :
  let h := snd (build part000 [(Type_, "b")] (snd (build part000 [(Type_, "a")] []))) in
  let h' := h ++ [Part000.CombineSelectorBuilder 0 "+" 1] in
  method part000 Type_ 2 "x" h' = (Throw TypeError, h').
Proof.
  intros h h'.
  apply (fragment_method_on_combined_node Part000_js 0 1 2 "+" "x" Type_ h h'). reflexivity.
Defined.

(** ** Selector expressions *)

Lemma construct_Simple (src : source) (K : Kind) (text : string)
    (rest : list (Kind * string)) (h : heap (implementation src)) :
  construct (implementation src) (Simple K text rest) h
  = build (implementation src) ((K, text) :: rest) h.
Proof. symmetry. apply build_create. Qed.

(** Evaluating an expression appends its nodes to the heap. *)
Lemma Part000_construct_appends (s : selector) (h h' : Part000.heap) (r : completion loc) :
  construct part000 s h = (r, h') -> exists ext, h' = h ++ ext.
Proof.
  revert h h' r. induction s as [K text rest|s1 IH1 c s2 IH2]; intros h h' r H.
  - rewrite (construct_Simple Part000_js) in H.
    apply Part000_build_appends in H as [o ->]. now eexists.
  - cbn [construct] in H. unfold mbind, Eff_bind in H.
    destruct (construct part000 s1 h) as [[n1|e] h1] eqn:E1.
    2: { injection H as _ <-. exact (IH1 _ _ _ E1). }
    destruct (IH1 _ _ _ E1) as [e1 ->].
    destruct (construct part000 s2 (h ++ e1)) as [[n2|e] h2] eqn:E2.
    2: { injection H as _ <-. destruct (IH2 _ _ _ E2) as [e2 ->].
         exists (e1 ++ e2). now rewrite app_assoc. }
    destruct (IH2 _ _ _ E2) as [e2 ->].
    injection H as _ <-.
    eexists (e1 ++ e2 ++ [_]). now rewrite !app_assoc.
Qed.

Lemma Part000_stringify_fuel (fuel fuel' : nat) (this : loc) (h : Part000.heap)
    (res : completion string * Part000.heap) :
  fuel <= fuel' ->
  Part000.stringify fuel this h = Some res ->
  Part000.stringify fuel' this h = Some res.
Proof.
  induction 1 as [|n Hle IH]; [trivial |].
  intros H. now apply Part000_stringify_more_fuel, IH.
Qed.

Lemma Part000_construct_rendering (s : selector) (h h' : Part000.heap) (root : loc) :
  construct part000 s h = (Normal root, h') ->
  Part000.stringify (depth s) root h' = Some (Normal (rendering s), h').
Proof.
  revert h h' root. induction s as [K text rest|s1 IH1 c s2 IH2]; intros h h' root H.
  - rewrite (construct_Simple Part000_js) in H.
    apply (build_simple Part000_js) in H as (map' & Hs & Hr).
    cbn [depth rendering]. rewrite <- Hr. now apply Part000_stringify_simple.
  - cbn [construct] in H.
    apply bind_inv_normal in H as (n1 & h1 & E1 & H).
    apply bind_inv_normal in H as (n2 & h2 & E2 & H).
    pose proof (IH1 _ _ _ E1) as R1. pose proof (IH2 _ _ _ E2) as R2.
    destruct (Part000_construct_appends _ _ _ _ E2) as [e2 ->].
    apply (Part000_stringify_extend _ _ _ e2) in R1.
    cbn [depth rendering].
    apply (Part000_combine_stringify _ n1 n2 root c _ _ (h1 ++ e2) h').
    + eapply Part000_stringify_fuel; [| exact R1]. lia.
    + eapply Part000_stringify_fuel; [| exact R2]. lia.
    + exact H.
Qed.

(** part_000 satisfies the equation of a combination for any two
    expressions whose evaluation returns: both sides are the left text, a
    space, the combinator, a space and the right text. *)
Lemma Part000_equation_holds (s1 s2 : selector) (c : string) (fuel : nat)
    (h h1 h2 : Part000.heap) (A B : loc) :
  construct part000 s1 h = (Normal A, h1) ->
  construct part000 s2 h1 = (Normal B, h2) ->
  depth s1 <= fuel -> depth s2 <= fuel ->
  let text := rendering s1 +:+ " " +:+ c +:+ " " +:+ rendering s2 in
  equation_sides part000 fuel s1 c s2 h
  = Some (Normal (text, text), h2 ++ [Part000.CombineSelectorBuilder A c B]).
Proof.
  intros E1 E2 L1 L2 text.
  pose proof (Part000_construct_rendering _ _ _ _ E1) as R1.
  pose proof (Part000_construct_rendering _ _ _ _ E2) as R2.
  destruct (Part000_construct_appends _ _ _ _ E2) as [e2 ->].
  apply (Part000_stringify_extend _ _ _ e2) in R1.
  apply (Part000_stringify_fuel _ fuel) in R1; [| exact L1].
  apply (Part000_stringify_fuel _ fuel) in R2; [| exact L2].
  pose proof (Part000_combine_stringify fuel A B _ c _ _ (h1 ++ e2) _ R1 R2 eq_refl) as Rc.
  apply (Part000_stringify_extend _ _ _ [Part000.CombineSelectorBuilder A c B]) in R1, R2.
  unfold equation_sides, combined_rendering, joined_renderings.
  unfold mbind, mret, Run_bind, Run_ret, lift.
  rewrite E1, E2.
  cbn [part000 combine stringify heap] in *.
  change (Part000.cssSelectorBuilder.combine A c B (h1 ++ e2))
    with (Normal (length (h1 ++ e2)),
          (h1 ++ e2) ++ [Part000.CombineSelectorBuilder A c B]).
  cbv iota beta. rewrite Rc, R1, R2. reflexivity.
Qed.

Lemma Tasks05_stringify_fuel (fuel fuel' : nat) (this : loc) (h : Tasks05.heap)
    (res : completion string * Tasks05.heap) :
  fuel <= fuel' ->
  Tasks05.stringify fuel this h = Some res ->
  Tasks05.stringify fuel' this h = Some res.
Proof.
  intros Hle. revert fuel Hle this h res.
  induction fuel' as [|fuel' IH]; intros fuel Hle this h res H.
  - assert (fuel = 0) as -> by lia. exact H.
  - destruct fuel as [|fuel]; [discriminate |].
    rewrite Tasks05_stringify_S in H. rewrite Tasks05_stringify_S.
    destruct (h !! this) as [o|]; [| exact H].
    destruct (Tasks05.combineSelector o); [| exact H]. cbn zeta in *.
    destruct (Tasks05.selector1 o) as [s1|]; [| exact H].
    destruct (Tasks05.stringify fuel s1 _) as [[[a|e] h1]|] eqn:E1; [| | discriminate].
    + rewrite (IH fuel ltac:(lia) _ _ _ E1).
      destruct (h1 !! this) as [o'|]; [| exact H].
      destruct (Tasks05.selector2 o') as [s2|]; [| exact H].
      destruct (Tasks05.stringify fuel s2 h1) as [[[b|e] h2]|] eqn:E2; [| | discriminate];
        now rewrite (IH fuel ltac:(lia) _ _ _ E2).
    + now rewrite (IH fuel ltac:(lia) _ _ _ E1).
Qed.

(** In 05-objects-tasks.js the nodes of an expression are the block [ext]
    its evaluation appended; [stringify] of the root reads and writes that
    block only (it clears the flags of the combinations in it), whatever
    stands before and after it. *)
Lemma Tasks05_construct_block (s : selector) (h h' : Tasks05.heap) (root : loc) :
  construct tasks05 s h = (Normal root, h') ->
  exists ext ext',
    h' = h ++ ext /\ length ext' = length ext
    /\ forall h0 tail,
         length h0 = length h ->
         Tasks05.stringify (depth s) root (h0 ++ ext ++ tail)
         = Some (Normal (rendering s), h0 ++ ext' ++ tail).
Proof.
  revert h h' root. induction s as [K text rest|s1 IH1 c s2 IH2]; intros h h' root H.
  - rewrite (construct_Simple Tasks05_js) in H.
    destruct (Tasks05_build_appends _ _ _ _ H) as [o ->].
    pose proof (Tasks05_build_root _ _ _ _ H) as ->.
    apply (build_simple Tasks05_js) in H as (map' & (o' & Ho & <- & Hc) & Hr).
    assert (Some o' = Some o) as [= ->]
      by (rewrite <- Ho; exact (list_lookup_middle h [] o (length h) eq_refl)).
    exists [o], [o]. split; [reflexivity |]. split; [reflexivity |].
    intros h0 tail L. cbn [depth rendering]. rewrite <- Hr.
    apply Tasks05_stringify_simple; [| exact Hc].
    now apply list_lookup_middle.
  - cbn [construct] in H.
    apply bind_inv_normal in H as (n1 & h1 & E1 & H).
    apply bind_inv_normal in H as (n2 & h2 & E2 & H).
    destruct (IH1 _ _ _ E1) as (e1 & e1' & -> & L1 & R1).
    destruct (IH2 _ _ _ E2) as (e2 & e2' & -> & L2 & R2).
    cbn [combine tasks05] in H. rewrite Tasks05_combine_run in H. injection H as <- <-.
    set (o := Tasks05.mkSelectorBuilder [] true (Some n1) (Some c) (Some n2)).
    set (o' := Tasks05.mkSelectorBuilder [] false (Some n1) (Some c) (Some n2)).
    exists (e1 ++ e2 ++ [o]), (e1' ++ e2' ++ [o']).
    split; [now rewrite !app_assoc |].
    split; [rewrite !length_app; cbn; lia |].
    intros h0 tail L. cbn [depth rendering].
    rewrite Tasks05_stringify_S.
    assert (Hroot : length ((h ++ e1) ++ e2) = length ((h0 ++ e1) ++ e2))
      by (rewrite !length_app; lia).
    replace (h0 ++ (e1 ++ e2 ++ [o]) ++ tail) with (((h0 ++ e1) ++ e2) ++ o :: tail)
      by (now rewrite <- !app_assoc).
    rewrite list_lookup_middle by exact Hroot.
    cbn [Tasks05.combineSelector Tasks05.selector1 o]. cbn zeta.
    rewrite Hroot. replace (length ((h0 ++ e1) ++ e2)) with (length ((h0 ++ e1) ++ e2) + 0) at 1
      by lia.
    rewrite insert_app_r. cbn [insert list_insert].
    change (Tasks05.set_combineSelector false o) with o'.
    replace (((h0 ++ e1) ++ e2) ++ o' :: tail) with (h0 ++ e1 ++ (e2 ++ o' :: tail))
      by (now rewrite <- !app_assoc).
    rewrite (Tasks05_stringify_fuel (depth s1) (Nat.max (depth s1) (depth s2)) _ _ _
               ltac:(lia) (R1 h0 _ L)).
    replace (h0 ++ e1' ++ e2 ++ o' :: tail) with (((h0 ++ e1') ++ e2) ++ o' :: tail)
      by (now rewrite <- !app_assoc).
    rewrite list_lookup_middle by (rewrite !length_app; lia).
    cbn [Tasks05.selector2 Tasks05.combinator Tasks05.text_of o'].
    replace (((h0 ++ e1') ++ e2) ++ o' :: tail) with ((h0 ++ e1') ++ e2 ++ (o' :: tail))
      by (now rewrite <- !app_assoc).
    rewrite (Tasks05_stringify_fuel (depth s2) (Nat.max (depth s1) (depth s2)) _ _ _ ltac:(lia)
               (R2 (h0 ++ e1') _ ltac:(rewrite !length_app; lia))).
    do 2 f_equal. now rewrite <- !app_assoc.
Qed.

(** X5. The text of a selector expression, in either file.  When client
    code builds a selector as the header comment shows, every part by its
    own facade call and chained calls and the parts joined by
    [cssSelectorBuilder.combine] to any depth, and the construction returns,
    then [stringify] of the result, with fuel for the depth of the
    expression, returns the text of the expression: the fragments of each
    simple part kind by kind, and each combination as its left text, a
    space, the combinator, a space, and its right text. *)
Theorem construct_then_stringify_gives_rendering (src : source) (s : selector)
    (h h' : heap (implementation src)) (root : loc) (fuel : nat) :
  construct (implementation src) s h = (Normal root, h') ->
  depth s <= fuel ->
  exists h'', stringify (implementation src) fuel root h' = Some (Normal (rendering s), h'').
Proof.
  intros H Hfuel. destruct src; cbn [implementation stringify tasks05 part000] in *.
  - destruct (Tasks05_construct_block s h h' root H) as (ext & ext' & -> & _ & R).
    exists (h ++ ext' ++ []).
    eapply Tasks05_stringify_fuel; [exact Hfuel |].
    rewrite <- (app_nil_r ext) at 1. now apply R.
  - exists h'. eapply Part000_stringify_fuel; [exact Hfuel |].
    now apply Part000_construct_rendering with h.
Qed.

(** The selector of the header comment. *)
Lemma construct_then_stringify_gives_rendering_witness :
  let s :=
    Combined (Simple Type_ "div" [(Id, "main"); (Class, "container"); (Class, "draggable")])
      "+"
      (Combined (Simple Type_ "table" [(Id, "data")])
         "~"
         (Combined (Simple Type_ "tr" [(PseudoClass, "nth-of-type(even)")])
            " "
            (Simple Type_ "td" [(PseudoClass, "nth-of-type(even)")]))) in
  rendering s
  = "div#main.container.draggable + table#data ~ tr:nth-of-type(even)   td:nth-of-type(even)"
  /\ exists h'',
       stringify tasks05 4 6 (snd (construct tasks05 s [])) = Some (Normal (rendering s), h'').
Proof.
  intros s. split; [reflexivity |].
  apply (construct_then_stringify_gives_rendering Tasks05_js s [] _ 6 4); [reflexivity |].
  cbn. lia.
Defined.

Lemma combine_returns (src : source) (s1 s2 : loc) (c : string)
    (h : heap (implementation src)) :
  exists this h', combine (implementation src) s1 c s2 h = (Normal this, h').
Proof.
  destruct src; cbn [implementation combine tasks05 part000].
  - rewrite Tasks05_combine_run. now eexists _, _.
  - now eexists _, _.
Qed.

(** X6. Which selector expressions can be built, in either file and on any
    heap: the construction returns a node exactly when every simple part
    inserts its fragments in a valid order, Type?, Id?, Class*, Attribute*,
    PseudoClass*, PseudoElement? (kinds never decrease, and only Class,
    Attribute and PseudoClass follow themselves); the texts and the
    combinators play no part. *)
Theorem construct_returns_iff_well_ordered (src : source) (s : selector)
    (h : heap (implementation src)) :
  (exists root h', construct (implementation src) s h = (Normal root, h'))
  <-> well_ordered s = true.
Proof.
  revert h. induction s as [K text rest|s1 IH1 c s2 IH2]; intros h.
  - rewrite construct_Simple. cbn [well_ordered].
    destruct (valid_order ((K, text) :: rest)) eqn:Hv.
    + split; [reflexivity |]. intros _.
      destruct (valid_order_builds src _ h 0 Hv) as (this & h' & Hb & _). now exists this, h'.
    + split; [| discriminate]. intros (root & h' & Hb). apply bind_inv_normal in Hb
        as (this0 & h0 & Hn & Hc).
      apply new_builder_simple in Hn.
      apply (chain_simple src _ h0 h' this0 root JsMap.empty Hn) in Hc as (_ & map' & Hi & _).
      change (@JsMap.empty MapValue) with (map_of (fun _ => [])) in Hi.
      apply insert_all_valid in Hi as [Hv' _]; [congruence |]. intros K' _. cbn. lia.
  - cbn [well_ordered construct]. rewrite andb_true_iff, <- (IH1 h). split.
    + intros (root & h' & H).
      apply bind_inv_normal in H as (n1 & h1 & E1 & H).
      apply bind_inv_normal in H as (n2 & h2 & E2 & H).
      split; [now exists n1, h1 |]. apply (IH2 h1). now exists n2, h2.
    + intros [(n1 & h1 & E1) H2]. apply (IH2 h1) in H2 as (n2 & h2 & E2).
      destruct (combine_returns src n1 n2 c h2) as (root & h' & Ec).
      exists root, h'. erewrite bind_normal by exact E1. erewrite bind_normal by exact E2.
      exact Ec.
Qed.

(** X7. What building a selector expression can throw, in either file:
    only the error of the duplicate check or the error of the order check.
    The builders the facade creates never meet the TypeError that
    [setArrayValueToMap] would raise on a Map entry that is no array, and
    [combine] throws nothing. *)
Theorem construct_throws_duplicate_or_order (src : source) (s : selector)
    (h h' : heap (implementation src)) (e : exn) :
  construct (implementation src) s h = (Throw e, h') ->
  e = Fragment.DuplicateFragmentError \/ e = Fragment.OrderViolationError.
Proof.
  revert h h'. induction s as [K text rest|s1 IH1 c s2 IH2]; intros h h' H.
  - rewrite construct_Simple in H. exact (build_throw_error _ _ _ _ _ H).
  - cbn [construct] in H. unfold mbind, Eff_bind in H.
    destruct (construct (implementation src) s1 h) as [[n1|e1] h1] eqn:E1.
    2: { injection H as <- _. exact (IH1 _ _ E1). }
    destruct (construct (implementation src) s2 h1) as [[n2|e2] h2] eqn:E2.
    2: { injection H as <- _. exact (IH2 _ _ E2). }
    destruct (combine_returns src n1 n2 c h2) as (this & h3 & Hc). congruence.
Qed.

Lemma construct_throws_duplicate_or_order_witness :
  let s := Combined (Simple Type_ "a" []) ">" (Simple Class "container" [(Id, "main")]) in
  fst (construct part000 s []) = Throw Fragment.OrderViolationError
  /\ (Fragment.OrderViolationError = Fragment.DuplicateFragmentError
      \/ Fragment.OrderViolationError = Fragment.OrderViolationError).
Proof.
  intros s. split; [reflexivity |].
  apply (construct_throws_duplicate_or_order Part000_js s [] (snd (construct part000 s []))).
  reflexivity.
Defined.

(** ** part_000: rendering reads only *)

(** X8. In part_000 [stringify] is free of side effects and repeatable on
    every heap: a call that returns a string or throws, on a builder or on
    a combination of any depth and with any sharing of children, leaves
    every object as it was, and the same call made again has the same
    outcome. *)
Theorem Part000_stringify_reads_only (fuel : nat) (this : loc) (h h' : Part000.heap)
    (r : completion string) :
  Part000.stringify fuel this h = Some (r, h') ->
  h' = h /\ Part000.stringify fuel this h' = Some (r, h').
Proof.
  intros H. split; [exact (Part000_stringify_heap _ _ _ _ _ H) |].
  now apply Part000_stringify_repeatable with h.
Qed.

Lemma Part000_stringify_reads_only_witness :
  let h := [Part000.SelectorBuilder [("TAG", Str "a")];
            Part000.SelectorBuilder [("TAG", Str "b")];
            Part000.CombineSelectorBuilder 0 "+" 1] in
  Part000.stringify 2 2 h = Some (Normal "a + b", h)
  /\ (h = h /\ Part000.stringify 2 2 h = Some (Normal "a + b", h)).
Proof.
  intros h. split; [reflexivity |].
  apply (Part000_stringify_reads_only 2 2 h h (Normal "a + b")). reflexivity.
Defined.

(** ** Every rendering returns *)

Lemma children_before_method (h h' : Part000.heap) (this : loc) (K : Kind) (text : string)
    (r : completion loc) :
  children_before h ->
  method part000 K this text h = (r, h') ->
  children_before h'.
Proof.
  intros Hw H. rewrite Part000_method in H. unfold mbind, Eff_bind in H.
  destruct (Part000.on_map this (Kind.insert K text) h) as [[[]|e] h1] eqn:E;
    injection H as _ <-; exact (children_before_on_map _ _ _ _ _ Hw E).
Qed.

Lemma children_before_snoc_builder (h : Part000.heap) (map : Fragment.fragments) :
  children_before h -> children_before (h ++ [Part000.SelectorBuilder map]).
Proof.
  intros Hw l s1 c s2 Hl.
  apply lookup_snoc_Some in Hl as [[_ Hl]|[_ Hl]]; [now apply Hw in Hl | discriminate].
Qed.

Lemma Part000_observations_return (program : list call) (h : Part000.heap) (fuel : nat) :
  children_before h ->
  scoped (length h) program = true ->
  length h + length program <= fuel ->
  exists os, observations part000 fuel program h = Some os.
Proof.
  revert h. induction program as [|c program IH]; intros h Hw Hs Hfuel; [now eexists |].
  cbn [length] in Hfuel.
  assert (Hnext : forall o h',
            children_before h' -> scoped (length h') program = true ->
            length h' <= S (length h) ->
            perform part000 fuel c h = Some (o, h') ->
            exists os, observations part000 fuel (c :: program) h = Some os).
  { intros o h' Hw' Hs' L Hp. cbn [observations]. rewrite Hp.
    destruct (IH h' Hw' Hs' ltac:(lia)) as [os ->]. now eexists. }
  destruct c as [K text|node K text|s1 c s2|node]; cbn [scoped] in Hs.
  - destruct (Part000_create_run K text h) as [map Hc].
    apply (Hnext (Returned_node (length h)) (h ++ [Part000.SelectorBuilder map])).
    + now apply children_before_snoc_builder.
    + rewrite length_app. cbn [length]. now rewrite Nat.add_1_r.
    + rewrite length_app. cbn [length]. lia.
    + cbn [perform]. now rewrite Hc.
  - apply andb_true_iff in Hs as [_ Hs].
    destruct (method part000 K node text h) as [r h'] eqn:Hm.
    destruct (Part000_method_frame _ _ _ _ _ _ Hm) as (L & _ & _).
    apply (Hnext (observe_node r) h').
    + exact (children_before_method _ _ _ _ _ _ Hw Hm).
    + now rewrite L.
    + lia.
    + cbn [perform]. now rewrite Hm.
  - apply andb_true_iff in Hs as [Hs Hs']. apply andb_true_iff in Hs as [H1 H2].
    apply Nat.ltb_lt in H1, H2.
    apply (Hnext (Returned_node (length h)) (h ++ [Part000.CombineSelectorBuilder s1 c s2])).
    + now apply (children_before_combine h _ s1 s2 (length h) c Hw H1 H2).
    + rewrite length_app. cbn [length]. now rewrite Nat.add_1_r.
    + rewrite length_app. cbn [length]. lia.
    + reflexivity.
  - apply andb_true_iff in Hs as [Hn Hs]. apply Nat.ltb_lt in Hn.
    destruct (Part000_stringify_returns h node Hw) as [r Hr].
    apply (Part000_stringify_fuel _ fuel) in Hr; [| lia].
    apply (Hnext (observe_string r) h); [exact Hw | exact Hs | lia |].
    cbn [perform stringify part000]. now rewrite Hr.
Qed.

Lemma combined_snoc (h : Tasks05.heap) (o : Tasks05.SelectorBuilder) :
  combined (h ++ [o]) = combined h + (if Tasks05.combineSelector o then 1 else 0).
Proof.
  unfold combined. rewrite List.filter_app, length_app. cbn [List.filter].
  now destruct (Tasks05.combineSelector o).
Qed.

Lemma combined_insert (h : Tasks05.heap) (this : loc) (o o' : Tasks05.SelectorBuilder) :
  h !! this = Some o ->
  Tasks05.combineSelector o' = Tasks05.combineSelector o ->
  combined (<[this := o']> h) = combined h.
Proof.
  intros Ho Hc. unfold combined.
  rewrite insert_take_drop by now apply lookup_lt_Some in Ho.
  rewrite <- (take_drop_middle h this o Ho) at 3.
  rewrite !List.filter_app, !length_app. cbn [List.filter]. rewrite Hc.
  now destruct (Tasks05.combineSelector o).
Qed.

Lemma combined_method (h h' : Tasks05.heap) (this : loc) (K : Kind) (text : string)
    (r : completion loc) :
  method tasks05 K this text h = (r, h') -> combined h' = combined h.
Proof.
  rewrite Tasks05_method. unfold mbind, mret, Eff_bind, Eff_ret, Tasks05.on_map.
  destruct (h !! this) as [o|] eqn:Ho; [| now intros [= _ <-]].
  destruct (Kind.insert K text (Tasks05.map o)) as [[[]|e] m]; intros [= _ <-];
    now apply (combined_insert h this o).
Qed.

Lemma Tasks05_observations_return (program : list call) (h : Tasks05.heap) (fuel : nat) :
  combined h + length program <= fuel ->
  exists os, observations tasks05 fuel program h = Some os.
Proof.
  revert h. induction program as [|c program IH]; intros h Hfuel; [now eexists |].
  cbn [length] in Hfuel.
  assert (Hnext : forall o h',
            combined h' <= S (combined h) ->
            perform tasks05 fuel c h = Some (o, h') ->
            exists os, observations tasks05 fuel (c :: program) h = Some os).
  { intros o h' L Hp. cbn [observations]. rewrite Hp.
    destruct (IH h' ltac:(lia)) as [os ->]. now eexists. }
  destruct c as [K text|node K text|s1 c s2|node].
  - destruct (Tasks05_create_run K text h) as [map Hc].
    eapply Hnext; [| cbn [perform]; now rewrite Hc].
    rewrite combined_snoc. cbn. lia.
  - destruct (method tasks05 K node text h) as [r h'] eqn:Hm.
    eapply Hnext; [| cbn [perform]; now rewrite Hm].
    rewrite (combined_method _ _ _ _ _ _ Hm). lia.
  - eapply Hnext; [| cbn [perform combine tasks05]; now rewrite Tasks05_combine_run].
    rewrite combined_snoc. cbn. lia.
  - destruct (Tasks05_stringify_returns fuel h node ltac:(lia)) as (r & h' & Hr & L).
    eapply Hnext; [| cbn [perform stringify tasks05]; now rewrite Hr]. lia.
Qed.

(** X9. No client program makes [stringify] run forever, in either file.
    A program is any sequence of facade calls, chained fragment calls,
    [combine] calls and [stringify] calls, made on references to objects
    that exist at the time of the call, failing calls included (the client
    catches and goes on).  Run from the empty heap with fuel for as many
    levels of recursion as the program has calls, every [stringify] of the
    program returns a string or throws: the facade cannot build a cycle. *)
Theorem client_program_stringify_returns (src : source) (program : list call) (fuel : nat) :
  scoped 0 program = true ->
  length program <= fuel ->
  exists os,
    observations (implementation src) fuel program (no_objects (implementation src)) = Some os.
Proof.
  intros Hs Hfuel. destruct src; cbn [implementation no_objects tasks05 part000].
  - now apply Tasks05_observations_return.
  - apply Part000_observations_return; [| exact Hs | exact Hfuel].
    intros l s1 c s2 Hl. discriminate.
Qed.

Lemma client_program_stringify_returns_witness :
  let program :=
    [Create Type_ "a"; Create Type_ "b"; Combine 0 "+" 1; Combine 2 ">" 2; Stringify 3;
     Chain 3 Id "x"; Stringify 3] in
  (exists os, observations tasks05 7 program [] = Some os)
  /\ (exists os, observations part000 7 program [] = Some os).
Proof.
  intros program. split.
  - apply (client_program_stringify_returns Tasks05_js program 7); [reflexivity | cbn; lia].
  - apply (client_program_stringify_returns Part000_js program 7); [reflexivity | cbn; lia].
Defined.

(** X10. In 05-objects-tasks.js [stringify] returns on every heap
    whatsoever, also on one where [node.combine(node, c, node)], the method
    of the class, has made a node its own child: with fuel for one level
    more than there are objects with [combineSelector] set, the call
    returns a string or throws, and it leaves no more objects with the flag
    set than there were.  Each level of the recursion clears the flag of
    its node before it descends, and a node whose flag is clear does not
    recurse. *)
Theorem Tasks05_stringify_returns_on_every_heap (h : Tasks05.heap) (this : loc) :
  exists r h',
    Tasks05.stringify (S (combined h)) this h = Some (r, h') /\ combined h' <= combined h.
Proof. apply Tasks05_stringify_returns. lia. Qed.

(** ** 05-objects-tasks.js: a node that was rendered is uncombined *)

Lemma flag_cleared_refl (h : Tasks05.heap) : Forall2 flag_cleared_at_most h h.
Proof. apply Forall2_same_length_lookup_2; [reflexivity |]. intros i x y -> [= ->]. now split. Qed.

Lemma flag_cleared_trans (h1 h2 h3 : Tasks05.heap) :
  Forall2 flag_cleared_at_most h1 h2 -> Forall2 flag_cleared_at_most h2 h3 ->
  Forall2 flag_cleared_at_most h1 h3.
Proof.
  intros H12 H23. eapply Forall2_trans; [| exact H12 | exact H23].
  intros x y z [M1 F1] [M2 F2]. split; [congruence | auto].
Qed.

Lemma flag_cleared_write (h : Tasks05.heap) (this : loc) (o : Tasks05.SelectorBuilder) :
  h !! this = Some o ->
  Forall2 flag_cleared_at_most h (<[this := Tasks05.set_combineSelector false o]> h).
Proof.
  intros Ho. rewrite <- (list_insert_id h this o Ho) at 1.
  apply Forall2_insert; [apply flag_cleared_refl |]. split; [reflexivity | discriminate].
Qed.

(** [stringify] writes flags only, and only to clear them. *)
Lemma Tasks05_stringify_clears_flags_only (fuel : nat) (this : loc) (h h' : Tasks05.heap)
    (r : completion string) :
  Tasks05.stringify fuel this h = Some (r, h') -> Forall2 flag_cleared_at_most h h'.
Proof.
  revert this h h' r. induction fuel as [|fuel IH]; intros this h h' r H; [discriminate |].
  rewrite Tasks05_stringify_S in H.
  destruct (h !! this) as [o|] eqn:Ho; [| injection H as _ <-; apply flag_cleared_refl].
  destruct (Tasks05.combineSelector o); [| injection H as _ <-; apply flag_cleared_refl].
  cbn zeta in H. pose proof (flag_cleared_write h this o Ho) as H0.
  destruct (Tasks05.selector1 o) as [s1|]; [| injection H as _ <-; exact H0].
  destruct (Tasks05.stringify fuel s1 _) as [[[a|e] h1]|] eqn:E1; [| | discriminate].
  2: { injection H as _ <-. eapply flag_cleared_trans; [exact H0 | exact (IH _ _ _ _ E1)]. }
  pose proof (flag_cleared_trans _ _ _ H0 (IH _ _ _ _ E1)) as H1.
  destruct (h1 !! this) as [o'|]; [| injection H as _ <-; exact H1].
  destruct (Tasks05.selector2 o') as [s2|]; [| injection H as _ <-; exact H1].
  destruct (Tasks05.stringify fuel s2 h1) as [[[b|e] h2]|] eqn:E2; [| | discriminate];
    injection H as _ <-; (eapply flag_cleared_trans; [exact H1 | exact (IH _ _ _ _ E2)]).
Qed.

Lemma flag_cleared_stays (h h' : Tasks05.heap) (this : loc) (o : Tasks05.SelectorBuilder) :
  Forall2 flag_cleared_at_most h h' ->
  h !! this = Some o ->
  Tasks05.combineSelector o = false ->
  exists o', h' !! this = Some o' /\ Tasks05.map o' = Tasks05.map o
             /\ Tasks05.combineSelector o' = false.
Proof.
  intros HF Ho Hc. destruct (Forall2_lookup_l _ _ _ _ _ HF Ho) as (o' & Ho' & M & F).
  exists o'. split; [exact Ho' |]. split; [exact M |].
  destruct (Tasks05.combineSelector o'); [| reflexivity].
  rewrite F in Hc; [discriminate | reflexivity].
Qed.

Lemma Tasks05_stringify_uncombines (fuel : nat) (this : loc) (h h' : Tasks05.heap)
    (r : completion string) (o : Tasks05.SelectorBuilder) :
  Tasks05.stringify fuel this h = Some (r, h') ->
  h !! this = Some o ->
  exists o', h' !! this = Some o' /\ Tasks05.map o' = Tasks05.map o
             /\ Tasks05.combineSelector o' = false.
Proof.
  intros H Ho. destruct fuel as [|fuel]; [discriminate |].
  rewrite Tasks05_stringify_S in H. rewrite Ho in H.
  destruct (Tasks05.combineSelector o) eqn:Hc.
  2: { injection H as _ <-. now exists o. }
  cbn zeta in H.
  set (h0 := <[this := Tasks05.set_combineSelector false o]> h) in *.
  assert (Ho0 : h0 !! this = Some (Tasks05.set_combineSelector false o))
    by (apply list_lookup_insert_eq; now apply lookup_lt_Some in Ho).
  assert (Hkeep : forall h1, Forall2 flag_cleared_at_most h0 h1 ->
            exists o', h1 !! this = Some o' /\ Tasks05.map o' = Tasks05.map o
                       /\ Tasks05.combineSelector o' = false).
  { intros h1 HF. exact (flag_cleared_stays h0 h1 this _ HF Ho0 eq_refl). }
  destruct (Tasks05.selector1 o) as [s1|];
    [| injection H as _ <-; apply Hkeep, flag_cleared_refl].
  destruct (Tasks05.stringify fuel s1 h0) as [[[a|e] h1]|] eqn:E1; [| | discriminate].
  2: { injection H as _ <-. apply Hkeep.
       exact (Tasks05_stringify_clears_flags_only _ _ _ _ _ E1). }
  pose proof (Tasks05_stringify_clears_flags_only _ _ _ _ _ E1) as H1.
  destruct (h1 !! this) as [o'|]; [| injection H as _ <-; now apply Hkeep].
  destruct (Tasks05.selector2 o') as [s2|]; [| injection H as _ <-; now apply Hkeep].
  destruct (Tasks05.stringify fuel s2 h1) as [[[b|e] h2]|] eqn:E2; [| | discriminate];
    injection H as _ <-; apply Hkeep;
    (eapply flag_cleared_trans; [exact H1 |]);
    exact (Tasks05_stringify_clears_flags_only _ _ _ _ _ E2).
Qed.

(** X11. What [stringify] of 05-objects-tasks.js returns from the second
    call on.  After one call of [stringify] on a node, whatever that call
    returned or threw, the node's [combineSelector] is clear and its Map is
    what it was; every later call therefore takes the Map branch: it
    returns the concatenation of the node's own Map, which is the empty
    string for a node made by [cssSelectorBuilder.combine], and changes
    nothing. *)
Theorem Tasks05_second_stringify_renders_own_map (fuel fuel' : nat) (this : loc)
    (h h' : Tasks05.heap) (r : completion string) (o : Tasks05.SelectorBuilder) :
  Tasks05.stringify fuel this h = Some (r, h') ->
  h !! this = Some o ->
  Tasks05.stringify (S fuel') this h'
  = Some (Normal (Fragment.stringify (Tasks05.map o)), h').
Proof.
  intros H Ho.
  destruct (Tasks05_stringify_uncombines _ _ _ _ _ _ H Ho) as (o' & Ho' & <- & Hc).
  now apply Tasks05_stringify_simple.
Qed.

Lemma Tasks05_second_stringify_renders_own_map_witness :
  let h := [Tasks05.mkSelectorBuilder [("TAG", Str "a")] false None None None;
            Tasks05.mkSelectorBuilder [("TAG", Str "b")] false None None None;
            Tasks05.mkSelectorBuilder [] true (Some 0) (Some "+") (Some 1)] in
  let h' := <[2 := Tasks05.mkSelectorBuilder [] false (Some 0) (Some "+") (Some 1)]> h in
  Tasks05.stringify 2 2 h = Some (Normal "a + b", h')
  /\ Tasks05.stringify 1 2 h' = Some (Normal "", h').
Proof.
  intros h h'. split; [reflexivity |].
  apply (Tasks05_second_stringify_renders_own_map 2 0 2 h h' (Normal "a + b")
           (Tasks05.mkSelectorBuilder [] true (Some 0) (Some "+") (Some 1)));
    reflexivity.
Defined.

(** ** The two files on programs that do not combine *)

Lemma same_builders_method (h1 h1' : Tasks05.heap) (h2 h2' : Part000.heap) (this : loc)
    (K : Kind) (text : string) (r1 r2 : completion loc) :
  same_builders h1 h2 ->
  method tasks05 K this text h1 = (r1, h1') ->
  method part000 K this text h2 = (r2, h2') ->
  r1 = r2 /\ same_builders h1' h2'.
Proof.
  intros HF. rewrite Tasks05_method, Part000_method.
  unfold mbind, mret, Eff_bind, Eff_ret, Tasks05.on_map, Part000.on_map.
  destruct (h1 !! this) as [o1|] eqn:Ho1.
  - destruct (Forall2_lookup_l _ _ _ _ _ HF Ho1) as (o2 & -> & -> & Hc).
    destruct (Kind.insert K text (Tasks05.map o1)) as [[[]|e] m];
      intros [= <- <-] [= <- <-]; (split; [reflexivity |]);
      apply Forall2_insert; auto; now split.
  - assert (h2 !! this = None) as ->.
    { apply lookup_ge_None. rewrite <- (Forall2_length _ _ _ HF). now apply lookup_ge_None. }
    intros [= <- <-] [= <- <-]. now split.
Qed.

Lemma same_builders_perform (fuel : nat) (c : call) (h1 : Tasks05.heap) (h2 : Part000.heap) :
  same_builders h1 h2 ->
  match c with Combine _ _ _ => false | _ => true end = true ->
  match perform tasks05 fuel c h1, perform part000 fuel c h2 with
  | Some (o1, h1'), Some (o2, h2') => o1 = o2 /\ same_builders h1' h2'
  | None, None => True
  | _, _ => False
  end.
Proof.
  intros HF Hc. pose proof (Forall2_length _ _ _ HF) as L.
  destruct c as [K text|node K text|s1 c s2|node]; [| | discriminate |]; cbn [perform].
  - destruct (Tasks05_create_run K text h1) as [m1 H1].
    destruct (create part000 K text h2) as [r2 h2'] eqn:H2.
    rewrite H1.
    assert (Hn : same_builders (h1 ++ [Tasks05.mkSelectorBuilder [] false None None None])
                   (h2 ++ [Part000.SelectorBuilder []])).
    { apply Forall2_app; [exact HF |]. constructor; [now split | constructor]. }
    cbn [create tasks05] in H1, H2.
    assert (E1 : method tasks05 K (length h1) text
                   (h1 ++ [Tasks05.mkSelectorBuilder [] false None None None])
                 = (Normal (length h1),
                    h1 ++ [Tasks05.mkSelectorBuilder m1 false None None None]))
      by (destruct K; exact H1).
    assert (E2 : method part000 K (length h2) text (h2 ++ [Part000.SelectorBuilder []])
                 = (r2, h2'))
      by (destruct K; exact H2).
    rewrite <- L in E2.
    destruct (same_builders_method _ _ _ _ _ _ _ _ _ Hn E1 E2) as [<- HF'].
    now split.
  - destruct (method tasks05 K node text h1) as [r1 h1'] eqn:E1.
    destruct (method part000 K node text h2) as [r2 h2'] eqn:E2.
    destruct (same_builders_method _ _ _ _ _ _ _ _ _ HF E1 E2) as [<- HF'].
    now split.
  - cbn [stringify tasks05 part000]. destruct fuel as [|fuel]; [exact I |].
    rewrite Tasks05_stringify_S, Part000_stringify_S.
    destruct (h1 !! node) as [o1|] eqn:Ho1.
    + destruct (Forall2_lookup_l _ _ _ _ _ HF Ho1) as (o2 & -> & -> & ->). now split.
    + assert (h2 !! node = None) as ->.
      { apply lookup_ge_None. rewrite <- L. now apply lookup_ge_None. }
      now split.
Qed.

Lemma same_builders_observations (fuel : nat) (program : list call) (h1 : Tasks05.heap)
    (h2 : Part000.heap) :
  same_builders h1 h2 ->
  no_combine program = true ->
  observations tasks05 fuel program h1 = observations part000 fuel program h2.
Proof.
  revert h1 h2. induction program as [|c program IH]; intros h1 h2 HF Hp; [reflexivity |].
  cbn [no_combine forallb] in Hp. apply andb_true_iff in Hp as [Hc Hp].
  pose proof (same_builders_perform fuel c h1 h2 HF Hc) as H.
  cbn [observations].
  destruct (perform tasks05 fuel c h1) as [[o1 h1']|], (perform part000 fuel c h2) as [[o2 h2']|];
    try contradiction; [| reflexivity].
  destruct H as [<- HF']. now rewrite (IH h1' h2' HF' Hp).
Qed.

(** X12. Where the two files agree.  On every client program that never
    calls [combine], whatever its facade calls, chained fragment calls and
    [stringify] calls, in any order, on any references and with any number
    of failing calls, 05-objects-tasks.js and part_000 return the same
    nodes and strings and throw the same errors, call by call: the files
    differ in combinations only. *)
Theorem implementations_agree_without_combine (fuel : nat) (program : list call) :
  no_combine program = true ->
  observations tasks05 fuel program (no_objects tasks05)
  = observations part000 fuel program (no_objects part000).
Proof. apply same_builders_observations. constructor. Qed.

Lemma implementations_agree_without_combine_witness :
  let program :=
    [Create Class "container"; Chain 0 Id "main"; Chain 0 Class "editable"; Stringify 0;
     Chain 7 Id "x"; Create Type_ "a"; Chain 1 Type_ "b"; Stringify 1] in
  observations tasks05 1 program [] = observations part000 1 program []
  /\ observations part000 1 program []
     = Some [Returned_node 0; Raised Fragment.OrderViolationError; Returned_node 0;
             Returned_string ".container.editable"; Raised TypeError; Returned_node 1;
             Raised Fragment.DuplicateFragmentError; Returned_string "a"].
Proof.
  intros program. split; [| reflexivity].
  apply (implementations_agree_without_combine 1 program). reflexivity.
Defined.

(** * Rectangle and the JSON helpers *)

(** ** Rectangle *)

Lemma Rectangle_getArea_assign_all (l : list Rectangle.assignment) (r : Rectangle.object) :
  Rectangle.getArea (Rectangle.assign_all r l) = Rectangle.getArea r.
Proof.
  revert r. induction l as [|a l IH]; intros r; [reflexivity |].
  cbn [Rectangle.assign_all fold_left]. fold (Rectangle.assign_all (Rectangle.assign r a) l).
  rewrite IH. now destruct a.
Qed.

(** C6, as the code has it.  [Rectangle(w, h)] exposes [width = w],
    [height = h] and [getArea], and [getArea()] returns the product of the
    two constructor arguments, computed at each call; assignments to the
    [width] and [height] fields after construction change the fields and
    do not change what [getArea()] returns. *)
Theorem Rectangle_getArea_of_constructor_arguments (w h : float)
    (l : list Rectangle.assignment) :
  Rectangle.width (Rectangle.Rectangle w h) = w
  /\ Rectangle.height (Rectangle.Rectangle w h) = h
  /\ Rectangle.getArea (Rectangle.Rectangle w h) tt = PrimFloat.mul w h
  /\ Rectangle.getArea (Rectangle.assign_all (Rectangle.Rectangle w h) l) tt
     = PrimFloat.mul w h.
Proof.
  repeat split. now rewrite Rectangle_getArea_assign_all.
Qed.

Lemma float_neq (x y : float) : PrimFloat.eqb x y = false -> PrimFloat.eqb x x = true -> x <> y.
Proof. intros Hxy Hxx ->. congruence. Qed.

(** C6 as stated fails: after [r = Rectangle(10, 20)] and [r.width = 5] the
    fields are 5 and 20 and [r.getArea()] is 200, not 100. *)
Lemma Rectangle_getArea_ignores_assigned_width :
  let r := Rectangle.assign (Rectangle.Rectangle 10 20) (Rectangle.Set_width 5) in
  Rectangle.width r = 5%float
  /\ Rectangle.height r = 20%float
  /\ Rectangle.getArea r tt = 200%float
  /\ Rectangle.getArea r tt <> PrimFloat.mul (Rectangle.width r) (Rectangle.height r).
Proof.
  intros r. repeat split; try reflexivity.
  apply float_neq; reflexivity.
Qed.

(** ** JSON: property order *)


Lemma has_property_iff (properties : list (string * JSON.value)) (key : string) :
  JSON.has_property properties key = true <-> In key (List.map fst properties).
Proof.
  unfold JSON.has_property. rewrite existsb_exists, in_map_iff. split.
  - intros ([k v] & Hin & Heq). apply String.eqb_eq in Heq. cbn in Heq. subst.
    now exists (key, v).
  - intros ([k v] & <- & Hin). exists (k, v). split; [exact Hin |]. apply String.eqb_refl.
Qed.

(** A new key that is enumerated before no present key goes to the end. *)
Lemma place_last (properties : list (string * JSON.value)) (key : string) (v : JSON.value) :
  (forall k, In k (List.map fst properties) -> JSON.before key k = false) ->
  JSON.place properties key v = properties ++ [(key, v)].
Proof.
  induction properties as [|[k v'] rest IH]; intros H; [reflexivity |].
  cbn [JSON.place]. rewrite (H k) by now left.
  rewrite IH; [reflexivity |]. intros k' Hk'. apply H. now right.
Qed.

Lemma define_last (properties : list (string * JSON.value)) (key : string) (v : JSON.value) :
  ~ In key (List.map fst properties) ->
  (forall k, In k (List.map fst properties) -> JSON.before key k = false) ->
  JSON.define properties key v = properties ++ [(key, v)].
Proof.
  intros Hnew Hb. unfold JSON.define.
  destruct (JSON.has_property properties key) eqn:E.
  - now apply has_property_iff in E.
  - now apply place_last.
Qed.

Lemma enumerated_app_inv (keys1 keys2 : list string) (k : string) :
  enumerated (keys1 ++ k :: keys2) = true ->
  forall k1, In k1 keys1 -> k1 <> k /\ JSON.before k k1 = false.
Proof.
  induction keys1 as [|k0 keys1 IH]; intros H k1 Hin; [destruct Hin |].
  cbn [app enumerated] in H. apply andb_true_iff in H as [Hall Hrest].
  destruct Hin as [<- | Hin]; [| now apply IH].
  rewrite forallb_forall in Hall. specialize (Hall k).
  rewrite andb_true_iff, !negb_true_iff in Hall.
  destruct Hall as [Hne Hb]; [apply in_or_app; right; now left |].
  split; [| exact Hb]. now apply String.eqb_neq.
Qed.

(** Members that need no reordering: no key occurs before a key it is
    enumerated before, and no key occurs twice. *)
Lemma define_all_in_order (members properties : list (string * JSON.value)) :
  enumerated (List.map fst (properties ++ members)) = true ->
  fold_left (fun ps m => JSON.define ps (fst m) (snd m)) members properties
  = properties ++ members.
Proof.
  revert properties. induction members as [|[key v] members IH]; intros properties H.
  - now rewrite app_nil_r.
  - cbn [fold_left fst snd].
    assert (Hk := H). rewrite map_app in Hk. cbn [List.map fst] in Hk.
    pose proof (enumerated_app_inv _ _ _ Hk) as Hinv.
    rewrite define_last.
    + rewrite IH; [now rewrite <- app_assoc |]. now rewrite <- app_assoc.
    + intros Hin. now destruct (Hinv key Hin).
    + intros k Hin. now destruct (Hinv k Hin).
Qed.

Lemma object_of_in_order (members : list (string * JSON.value)) :
  enumerated (List.map fst members) = true ->
  JSON.object_of members = JSON.Object members.
Proof.
  intros H. unfold JSON.object_of. now rewrite (define_all_in_order members []).
Qed.


(** A value of the model is the value its own syntax tree denotes. *)
Lemma build_value (v : JSON.value) : is_json_value v = true -> JSON.build v = v.
Proof.
  induction v as [| | | |elements IH|members IH] using value_induction;
    intros H; try reflexivity.
  - cbn [JSON.build is_json_value] in *. f_equal.
    rewrite forallb_forall in H. rewrite List.Forall_forall in IH.
    rewrite <- (map_id elements) at 2. apply map_ext_in. intros e He.
    apply IH; [exact He | now apply H].
  - cbn [JSON.build is_json_value] in *. apply andb_true_iff in H as [Hk Hv].
    rewrite forallb_forall in Hv. rewrite List.Forall_forall in IH.
    replace (List.map (fun m => (fst m, JSON.build (snd m))) members) with members.
    + now apply object_of_in_order.
    + rewrite <- (map_id members) at 1. apply map_ext_in. intros [k v] Hm. cbn.
      f_equal. symmetry. apply (IH (k, v) Hm). now apply (Hv (k, v)).
Qed.

(** ** JSON: what [stringify] writes, [parse_text] reads back *)

Lemma length_append (s1 s2 : string) :
  String.length (s1 +:+ s2) = String.length s1 + String.length s2.
Proof.
  induction s1 as [|c s1 IH]; [reflexivity |].
  rewrite append_cons. cbn [String.length]. now rewrite IH.
Qed.

Lemma skip_whitespace_here (c : ascii) (s : string) :
  JSON.is_whitespace c = false -> JSON.skip_whitespace (String c s) = String c s.
Proof. intros H. cbn [JSON.skip_whitespace]. now rewrite H. Qed.

Lemma accept_here (c : ascii) (s : string) :
  JSON.is_whitespace c = false -> JSON.accept c (String c s) = Some s.
Proof.
  intros H. unfold JSON.accept. rewrite skip_whitespace_here by exact H.
  now rewrite Ascii.eqb_refl.
Qed.

Lemma accept_other (c c' : ascii) (s : string) :
  JSON.is_whitespace c' = false -> c' <> c -> JSON.accept c (String c' s) = None.
Proof.
  intros H Hne. unfold JSON.accept. rewrite skip_whitespace_here by exact H.
  apply Ascii.eqb_neq in Hne. now rewrite Hne.
Qed.

(** *** Strings *)

Lemma parse_characters_escape (c : ascii) (tail : string) :
  JSON.parse_characters (JSON.escape c +:+ tail)
  = JSON.prepend c (JSON.parse_characters tail).
Proof.
  destruct c as [[] [] [] [] [] [] [] []]; reflexivity.
Qed.

Lemma parse_characters_escape_all (s rest : string) :
  JSON.parse_characters (JSON.escape_all s +:+ String JSON.quotation_mark rest)
  = JSON.Parsed (s, rest).
Proof.
  induction s as [|c s IH]; [reflexivity |].
  cbn [JSON.escape_all]. rewrite append_assoc, parse_characters_escape, IH.
  reflexivity.
Qed.

Lemma quote_append (s rest : string) :
  JSON.quote s +:+ rest
  = String JSON.quotation_mark (JSON.escape_all s +:+ String JSON.quotation_mark rest).
Proof. unfold JSON.quote. now rewrite append_cons, append_assoc. Qed.

(** *** Numbers *)

Lemma delimited_ends_number (rest : string) : delimited rest -> ends_number rest.
Proof.
  destruct rest as [|c rest]; [easy |]. cbn. intros [-> | [-> | ->]]; now split.
Qed.

Lemma parse_digits_string_of_uint (d : Decimal.uint) (rest : string) :
  ends_number rest ->
  JSON.parse_digits (NilEmpty.string_of_uint d +:+ rest) = (d, rest).
Proof.
  intros H. induction d; cbn [NilEmpty.string_of_uint];
    rewrite ?append_cons; cbn [JSON.parse_digits JSON.digit_of]; rewrite ?IHd;
    try reflexivity.
  rewrite append_nil_l. destruct rest as [|c rest]; [reflexivity |].
  destruct H as [H _]. cbn [JSON.parse_digits]. now rewrite H.
Qed.

Lemma canonical_to_uint (p : positive) : JSON.canonical (Pos.to_uint p) = true.
Proof.
  unfold JSON.canonical. apply Decimal.internal_uint_dec_lb.
  rewrite <- DecimalPos.Unsigned.to_of, DecimalPos.Unsigned.of_to. reflexivity.
Qed.

(** The first character of the digits of a positive number is a digit. *)
Lemma string_of_to_uint (p : positive) :
  exists c s, NilEmpty.string_of_uint (Pos.to_uint p) = String c s
              /\ JSON.digit_of c <> None.
Proof.
  pose proof (DecimalPos.Unsigned.to_uint_nonnil p) as H.
  destruct (Pos.to_uint p); [easy | ..]; cbn; eexists _, _; (split; [reflexivity | easy]).
Qed.

Lemma parse_number_text (z : Z) (rest : string) :
  (Z.abs z <= JSON.max_safe_integer)%Z ->
  ends_number rest ->
  JSON.parse_number (JSON.number_text z +:+ rest) = JSON.Parsed (z, rest).
Proof.
  intros Hz Hrest.
  assert (Hc : JSON.continues_number rest = false).
  { destruct rest; [reflexivity | apply Hrest]. }
  apply Z.leb_le in Hz.
  unfold JSON.number_text. destruct z as [|p|p]; cbn [Z.to_int NilEmpty.string_of_int].
  - unfold JSON.parse_number. cbn [NilEmpty.string_of_uint]. rewrite !append_cons.
    change (String "0" ("" +:+ rest)) with (NilEmpty.string_of_uint (Decimal.D0 Decimal.Nil) +:+ rest).
    rewrite parse_digits_string_of_uint by exact Hrest. now rewrite Hc.
  - unfold JSON.parse_number.
    destruct (string_of_to_uint p) as (c & s & Hs & Hd).
    replace (match NilEmpty.string_of_uint (Pos.to_uint p) +:+ rest with
             | String "-"%char r => (true, r)
             | _ => (false, NilEmpty.string_of_uint (Pos.to_uint p) +:+ rest)
             end)
      with (false, NilEmpty.string_of_uint (Pos.to_uint p) +:+ rest).
    + rewrite parse_digits_string_of_uint by exact Hrest.
      rewrite canonical_to_uint, Hc. cbn [andb negb].
      change (Decimal.Pos (Pos.to_uint p)) with (Z.to_int (Z.pos p)).
      now rewrite DecimalZ.of_to, Hz.
    + rewrite Hs, append_cons.
      destruct c as [[] [] [] [] [] [] [] []]; try reflexivity. now cbn in Hd.
  - unfold JSON.parse_number. rewrite append_cons.
    rewrite parse_digits_string_of_uint by exact Hrest.
    rewrite canonical_to_uint, Hc. cbn [andb negb].
    change (Decimal.Neg (Pos.to_uint p)) with (Z.to_int (Z.neg p)).
    rewrite DecimalZ.of_to. cbn [Z.eqb]. now rewrite Hz.
Qed.

(** *** Values *)

Lemma parse_value_S (fuel : nat) (c : ascii) (rest : string) :
  JSON.is_whitespace c = false ->
  JSON.parse_value (S fuel) (String c rest)
  = if Ascii.eqb c "{" then
      match JSON.accept "}" rest with
      | Some rest' => JSON.Parsed (JSON.Object [], rest')
      | None =>
          match JSON.parse_members fuel rest with
          | JSON.Parsed (members, rest') => JSON.Parsed (JSON.Object members, rest')
          | JSON.Malformed => JSON.Malformed
          | JSON.Unmodelled => JSON.Unmodelled
          end
      end
    else if Ascii.eqb c "[" then
      match JSON.accept "]" rest with
      | Some rest' => JSON.Parsed (JSON.Array [], rest')
      | None =>
          match JSON.parse_elements fuel rest with
          | JSON.Parsed (elements, rest') => JSON.Parsed (JSON.Array elements, rest')
          | JSON.Malformed => JSON.Malformed
          | JSON.Unmodelled => JSON.Unmodelled
          end
      end
    else if Ascii.eqb c JSON.quotation_mark then
      match JSON.parse_characters rest with
      | JSON.Parsed (text, rest') => JSON.Parsed (JSON.Text text, rest')
      | JSON.Malformed => JSON.Malformed
      | JSON.Unmodelled => JSON.Unmodelled
      end
    else if Ascii.eqb c "t" then JSON.literal "true" (JSON.Bool true) (String c rest)
    else if Ascii.eqb c "f" then JSON.literal "false" (JSON.Bool false) (String c rest)
    else if Ascii.eqb c "n" then JSON.literal "null" JSON.Null (String c rest)
    else
      match JSON.parse_number (String c rest) with
      | JSON.Parsed (z, rest') => JSON.Parsed (JSON.Number z, rest')
      | JSON.Malformed => JSON.Malformed
      | JSON.Unmodelled => JSON.Unmodelled
      end.
Proof.
  intros H. cbn [JSON.parse_value]. now rewrite (skip_whitespace_here c rest H).
Qed.

Lemma parse_elements_S (fuel : nat) (s : string) :
  JSON.parse_elements (S fuel) s
  = match JSON.parse_value fuel s with
    | JSON.Parsed (v, rest) =>
        match JSON.accept "]" rest with
        | Some rest' => JSON.Parsed ([v], rest')
        | None =>
            match JSON.accept "," rest with
            | Some rest' =>
                match JSON.parse_elements fuel rest' with
                | JSON.Parsed (elements, rest'') => JSON.Parsed (v :: elements, rest'')
                | JSON.Malformed => JSON.Malformed
                | JSON.Unmodelled => JSON.Unmodelled
                end
            | None => JSON.Malformed
            end
        end
    | JSON.Malformed => JSON.Malformed
    | JSON.Unmodelled => JSON.Unmodelled
    end.
Proof. reflexivity. Qed.

Lemma parse_members_S (fuel : nat) (s : string) :
  JSON.parse_members (S fuel) s
  = match JSON.accept JSON.quotation_mark s with
    | Some rest =>
        match JSON.parse_characters rest with
        | JSON.Parsed (key, rest1) =>
            match JSON.accept ":" rest1 with
            | Some rest2 =>
                match JSON.parse_value fuel rest2 with
                | JSON.Parsed (v, rest3) =>
                    match JSON.accept "}" rest3 with
                    | Some rest' => JSON.Parsed ([(key, v)], rest')
                    | None =>
                        match JSON.accept "," rest3 with
                        | Some rest' =>
                            match JSON.parse_members fuel rest' with
                            | JSON.Parsed (members, rest'') =>
                                JSON.Parsed ((key, v) :: members, rest'')
                            | JSON.Malformed => JSON.Malformed
                            | JSON.Unmodelled => JSON.Unmodelled
                            end
                        | None => JSON.Malformed
                        end
                    end
                | JSON.Malformed => JSON.Malformed
                | JSON.Unmodelled => JSON.Unmodelled
                end
            | None => JSON.Malformed
            end
        | JSON.Malformed => JSON.Malformed
        | JSON.Unmodelled => JSON.Unmodelled
        end
    | None => JSON.Malformed
    end.
Proof. reflexivity. Qed.

(** A digit or a minus sign starts a number and nothing else. *)
Lemma digit_starts_value (c : ascii) :
  c = "-"%char \/ JSON.digit_of c <> None ->
  starts_value c
  /\ forall fuel rest,
       JSON.parse_value (S fuel) (String c rest)
       = match JSON.parse_number (String c rest) with
         | JSON.Parsed (z, rest') => JSON.Parsed (JSON.Number z, rest')
         | JSON.Malformed => JSON.Malformed
         | JSON.Unmodelled => JSON.Unmodelled
         end.
Proof.
  intros H.
  destruct c as [[] [] [] [] [] [] [] []];
    try (exfalso; destruct H as [H | H]; [discriminate H | now apply H]);
    (split; [repeat split; discriminate | reflexivity]).
Qed.

Lemma number_text_start (z : Z) :
  exists c s, JSON.number_text z = String c s
              /\ (c = "-"%char \/ JSON.digit_of c <> None).
Proof.
  unfold JSON.number_text. destruct z as [|p|p]; cbn [Z.to_int NilEmpty.string_of_int].
  - eexists _, _. split; [reflexivity |]. now right.
  - destruct (string_of_to_uint p) as (c & s & Hs & Hd). exists c, s. split; [exact Hs |].
    now right.
  - eexists _, _. split; [reflexivity |]. now left.
Qed.

Lemma to_text_start (v : JSON.value) :
  exists c s, JSON.to_text v = String c s /\ starts_value c.
Proof.
  destruct v as [|[]|z|s|elements|members]; cbn [JSON.to_text].
  1-3, 6-7: eexists _, _; (split; [reflexivity | repeat split; discriminate]).
  - destruct (number_text_start z) as (c & s & E & Hc). exists c, s. split; [exact E |].
    now apply digit_starts_value.
  - unfold JSON.quote. eexists _, _. split; [reflexivity | repeat split; discriminate].
Qed.

Lemma commas_cons (t : string) (ts : list string) (r : string) :
  JSON.commas (t :: ts) +:+ r
  = t +:+ match ts with [] => r | _ :: _ => String "," (JSON.commas ts +:+ r) end.
Proof.
  destruct ts as [|t' ts]; [reflexivity |].
  cbn [JSON.commas]. now rewrite !append_assoc.
Qed.

Lemma delimited_bracket (rest : string) : delimited (String "]" rest).
Proof. cbn. tauto. Qed.

Lemma delimited_brace (rest : string) : delimited (String "}" rest).
Proof. cbn. tauto. Qed.

Lemma delimited_comma (rest : string) : delimited (String "," rest).
Proof. cbn. tauto. Qed.

Lemma list_sum_cons (n : nat) (l : list nat) : list_sum (n :: l) = n + list_sum l.
Proof. reflexivity. Qed.

(** The elements of an array that is not empty, up to the closing bracket. *)
Lemma parse_elements_commas (elements : list JSON.value) :
  Forall (fun v => forall fuel rest, size v <= fuel -> delimited rest ->
                   JSON.parse_value fuel (JSON.to_text v +:+ rest) = JSON.Parsed (v, rest))
    elements ->
  elements <> [] ->
  forall fuel rest,
    list_sum (List.map (fun e => S (size e)) elements) <= fuel ->
    JSON.parse_elements fuel
      (JSON.commas (List.map JSON.to_text elements) +:+ String "]" rest)
    = JSON.Parsed (elements, rest).
Proof.
  induction 1 as [|v elements Hv Hall IH]; intros Hne fuel rest Hfuel; [easy |].
  cbn [List.map] in Hfuel. rewrite list_sum_cons in Hfuel.
  destruct fuel as [|fuel]; [lia |].
  rewrite parse_elements_S. cbn [List.map]. rewrite commas_cons.
  destruct elements as [|v' elements].
  - cbn [List.map]. rewrite Hv by (try apply delimited_bracket; lia).
    now rewrite accept_here.
  - cbn [List.map] in IH, Hfuel |- *. rewrite Hv by (try apply delimited_comma; lia).
    rewrite accept_other by easy. rewrite accept_here by easy.
    rewrite (IH ltac:(easy) fuel rest) by lia.
    reflexivity.
Qed.

(** The members of an object that is not empty, up to the closing brace. *)
Lemma parse_members_commas (members : list (string * JSON.value)) :
  Forall (fun m => forall fuel rest, size (snd m) <= fuel -> delimited rest ->
                   JSON.parse_value fuel (JSON.to_text (snd m) +:+ rest)
                   = JSON.Parsed (snd m, rest))
    members ->
  members <> [] ->
  forall fuel rest,
    list_sum (List.map (fun m => S (size (snd m))) members) <= fuel ->
    JSON.parse_members fuel
      (JSON.commas
         (List.map (fun p => JSON.quote (fst p) +:+ ":" +:+ JSON.to_text (snd p)) members)
       +:+ String "}" rest)
    = JSON.Parsed (members, rest).
Proof.
  induction 1 as [|[key v] members Hv Hall IH]; intros Hne fuel rest Hfuel; [easy |].
  cbn [List.map fst snd] in *. rewrite list_sum_cons in Hfuel.
  destruct fuel as [|fuel]; [lia |].
  rewrite parse_members_S, commas_cons, !append_assoc, quote_append.
  rewrite accept_here by easy. rewrite parse_characters_escape_all.
  rewrite append_cons, append_nil_l. rewrite accept_here by easy.
  destruct members as [|m' members].
  - cbn [List.map]. rewrite Hv by (try apply delimited_brace; lia).
    now rewrite accept_here.
  - cbn [List.map] in IH, Hfuel |- *. rewrite Hv by (try apply delimited_comma; lia).
    rewrite accept_other by easy. rewrite accept_here by easy.
    rewrite (IH ltac:(easy) fuel rest) by lia.
    reflexivity.
Qed.

(** The text of a syntax tree, followed by the end of the text or by what
    closes or continues the enclosing array or object, is read back as the
    tree, with fuel from the size of the tree on. *)
Lemma parse_value_to_text (v : JSON.value) :
  is_tree v = true ->
  forall fuel rest,
    size v <= fuel -> delimited rest ->
    JSON.parse_value fuel (JSON.to_text v +:+ rest) = JSON.Parsed (v, rest).
Proof.
  induction v as [|b|z|s|elements IH|members IH] using value_induction;
    intros Htree fuel rest Hfuel Hrest;
    (destruct fuel as [|fuel]; [cbn [size] in Hfuel; lia |]).
  - reflexivity.
  - destruct b; reflexivity.
  - cbn [JSON.to_text is_tree] in *.
    destruct (number_text_start z) as (c & s & E & Hc).
    destruct (digit_starts_value c Hc) as [_ Hp].
    rewrite E, append_cons, Hp, <- append_cons, <- E.
    rewrite parse_number_text; [reflexivity | now apply Z.leb_le |].
    now apply delimited_ends_number.
  - cbn [JSON.to_text]. rewrite quote_append, parse_value_S by reflexivity.
    cbn [Ascii.eqb Bool.eqb JSON.quotation_mark].
    now rewrite parse_characters_escape_all.
  - cbn [JSON.to_text is_tree size] in *. rewrite !append_assoc, append_cons, append_nil_l.
    rewrite parse_value_S by reflexivity. cbn [Ascii.eqb Bool.eqb].
    destruct elements as [|e elements].
    + cbn [List.map JSON.commas]. rewrite append_nil_l, append_cons, append_nil_l.
      now rewrite accept_here.
    + rewrite append_cons, append_nil_l.
      assert (Hacc : JSON.accept "]"
                (JSON.commas (List.map JSON.to_text (e :: elements)) +:+ String "]" rest)
              = None).
      { cbn [List.map]. rewrite commas_cons.
        destruct (to_text_start e) as (c & s & E & Hws & Hb & _).
        rewrite E, append_cons. now apply accept_other. }
      rewrite Hacc, parse_elements_commas; [reflexivity | | easy | lia].
      rewrite forallb_forall in Htree. rewrite List.Forall_forall in IH |- *.
      intros x Hx. apply IH; [exact Hx | now apply Htree].
  - cbn [JSON.to_text is_tree size] in *. rewrite !append_assoc, append_cons, append_nil_l.
    rewrite parse_value_S by reflexivity. cbn [Ascii.eqb Bool.eqb].
    destruct members as [|m members].
    + cbn [List.map JSON.commas]. rewrite append_nil_l, append_cons, append_nil_l.
      now rewrite accept_here.
    + rewrite append_cons, append_nil_l.
      assert (Hacc : JSON.accept "}"
                (JSON.commas
                   (List.map (fun p => JSON.quote (fst p) +:+ ":" +:+ JSON.to_text (snd p))
                      (m :: members))
                 +:+ String "}" rest)
              = None).
      { cbn [List.map]. rewrite commas_cons, !append_assoc, quote_append.
        now apply accept_other. }
      rewrite Hacc, parse_members_commas; [reflexivity | | easy | lia].
      rewrite forallb_forall in Htree. rewrite List.Forall_forall in IH |- *.
      intros x Hx. apply IH; [exact Hx | now apply Htree].
Qed.

(** The fuel [parse_text] provides is enough: a tree is no larger than its
    text is long. *)
Lemma length_commas (t : string) (ts : list string) :
  String.length (JSON.commas (t :: ts))
  = String.length t
    + match ts with [] => 0 | _ :: _ => S (String.length (JSON.commas ts)) end.
Proof.
  destruct ts as [|t' ts]; cbn [JSON.commas]; [lia |].
  rewrite !length_append. cbn [String.length]. lia.
Qed.

Lemma sum_sizes_le_length {A} (f : A -> nat) (g : A -> string) (l : list A) :
  Forall (fun x => f x <= S (String.length (g x))) l ->
  list_sum (List.map f l) <= S (String.length (JSON.commas (List.map g l))).
Proof.
  induction 1 as [|x l Hx Hall IH]; [cbn; lia |].
  cbn [List.map]. rewrite list_sum_cons, length_commas.
  destruct l as [|y l]; [cbn; lia |]. cbn [List.map] in *. lia.
Qed.

Lemma size_le_length (v : JSON.value) : size v <= String.length (JSON.to_text v).
Proof.
  induction v as [|b|z|s|elements IH|members IH] using value_induction;
    cbn [size JSON.to_text].
  - cbn. lia.
  - destruct b; cbn; lia.
  - destruct (number_text_start z) as (c & s & -> & _). cbn [String.length]. lia.
  - unfold JSON.quote. cbn [String.length]. lia.
  - rewrite !length_append. cbn [String.length].
    enough (list_sum (List.map (fun e => S (size e)) elements)
            <= S (String.length (JSON.commas (List.map JSON.to_text elements)))) by lia.
    apply sum_sizes_le_length. eapply List.Forall_impl; [| exact IH].
    cbn beta. intros e He. lia.
  - rewrite !length_append. cbn [String.length].
    enough (list_sum (List.map (fun m => S (size (snd m))) members)
            <= S (String.length
                    (JSON.commas
                       (List.map
                          (fun p => JSON.quote (fst p) +:+ ":" +:+ JSON.to_text (snd p))
                          members)))) by lia.
    apply sum_sizes_le_length. eapply List.Forall_impl; [| exact IH].
    cbn beta. intros m Hm. rewrite !length_append. lia.
Qed.

Lemma is_json_value_tree (v : JSON.value) : is_json_value v = true -> is_tree v = true.
Proof.
  induction v as [| | | |elements IH|members IH] using value_induction;
    cbn [is_json_value is_tree]; intros H; try exact H.
  - rewrite forallb_forall in *. rewrite List.Forall_forall in IH.
    intros e He. apply IH; [exact He | now apply H].
  - apply andb_true_iff in H as [_ H].
    rewrite forallb_forall in *. rewrite List.Forall_forall in IH.
    intros m Hm. apply IH; [exact Hm | now apply H].
Qed.

(** The text of a syntax tree parses to the tree. *)
Lemma parse_text_to_text (v : JSON.value) :
  is_tree v = true -> JSON.parse_text (JSON.to_text v) = JSON.Parsed v.
Proof.
  intros H. unfold JSON.parse_text.
  rewrite <- (append_nil_r (JSON.to_text v)) at 2.
  rewrite (parse_value_to_text v H); [reflexivity | | exact I].
  pose proof (size_le_length v). lia.
Qed.

(** [JSON.parse(JSON.stringify(v))] is [v], for the values of the model. *)
Lemma parse_stringify (v : JSON.value) :
  is_json_value v = true -> JSON.parse (JSON.stringify v) = JSON.Parsed v.
Proof.
  intros H. unfold JSON.parse, JSON.stringify.
  rewrite parse_text_to_text by now apply is_json_value_tree.
  now rewrite build_value.
Qed.

(** ** JSON: the enumeration order of an object *)

















Lemma place_Permutation (properties : list (string * JSON.value)) (key : string)
    (v : JSON.value) :
  Permutation (JSON.place properties key v) ((key, v) :: properties).
Proof.
  induction properties as [|[k v'] rest IH]; [reflexivity |].
  cbn [JSON.place]. destruct (JSON.before key k); [reflexivity |].
  rewrite IH. apply perm_swap.
Qed.








Lemma map_fst_set (found : list (string * JSON.value)) (key : string) (v : JSON.value) :
  forall k, In k (List.map fst (JsMap.set found key v)) ->
            k = key \/ In k (List.map fst found).
Proof.
  induction found as [|[k' v'] found IH]; cbn [JsMap.set List.map fst In]; intros k.
  - intros [<- | []]. now left.
  - destruct (String.eqb k' key); cbn [List.map fst In].
    + tauto.
    + intros [<- | H]; [tauto |]. apply IH in H. tauto.
Qed.

Lemma distinct_members_keys (members : list (string * JSON.value)) (key : string) :
  In key (List.map fst (distinct_members members)) -> In key (List.map fst members).
Proof.
  unfold distinct_members.
  enough (H : forall found,
             In key (List.map fst
                       (fold_left (fun found m => JsMap.set found (fst m) (snd m))
                          members found)) ->
             In key (List.map fst found) \/ In key (List.map fst members)).
  { intros Hin. apply H in Hin as [[] | Hin]. exact Hin. }
  induction members as [|[k v] members IH]; intros found; cbn [fold_left fst snd].
  - now left.
  - intros Hin. apply IH in Hin as [Hin | Hin]; cbn [List.map fst In]; [| tauto].
    apply map_fst_set in Hin. destruct Hin as [-> | Hin]; tauto.
Qed.

(** Without array indices the enumeration order is the order of the
    members. *)
Lemma enumeration_without_indices (members properties : list (string * JSON.value)) :
  (forall key, In key (List.map fst members) -> JSON.array_index key = None) ->
  enumeration_of members properties -> properties = members.
Proof.
  intros Hidx (indexed & Hp & _ & ->).
  assert (Hall : forall m, In m members -> index_key m = false).
  { intros m Hm. unfold index_key. now rewrite (Hidx (fst m)) by now apply in_map. }
  assert (Hnone : List.filter index_key members = []).
  { clear Hp. induction members as [|m members IH]; [reflexivity |].
    cbn [List.filter]. rewrite (Hall m) by now left.
    apply IH; intros; [apply Hidx | apply Hall]; cbn [List.map In]; tauto. }
  rewrite Hnone in Hp. symmetry in Hp. apply Permutation_nil in Hp as ->. cbn [app].
  clear Hnone. induction members as [|m members IH]; [reflexivity |].
  cbn [List.filter]. rewrite (Hall m) by now left. cbn [negb]. f_equal.
  apply IH; intros; [apply Hidx | apply Hall]; cbn [List.map In]; tauto.
Qed.

(** Two lists in enumeration order of the same members are the same. *)
Lemma sorted_Permutation_eq (l l' : list (string * JSON.value)) :
  StronglySorted index_lt l -> StronglySorted index_lt l' -> Permutation l l' -> l = l'.
Proof.
  intros Hs. revert l'. induction Hs as [|m l Hs IH Hall]; intros l' Hs' Hp.
  - now apply Permutation_nil in Hp as ->.
  - destruct Hs' as [|m' l' Hs' Hall'].
    + symmetry in Hp. now apply Permutation_nil in Hp.
    + assert (m = m').
      { assert (Hm : In m (m' :: l')) by (eapply Permutation_in; [exact Hp | now left]).
        assert (Hm' : In m' (m :: l))
          by (eapply Permutation_in; [symmetry; exact Hp | now left]).
        destruct Hm as [-> | Hm]; [reflexivity |].
        destruct Hm' as [-> | Hm']; [reflexivity |].
        rewrite List.Forall_forall in Hall, Hall'.
        apply Hall in Hm'. apply Hall' in Hm. unfold index_lt in *. lia. }
      subst m'. f_equal. apply IH; [exact Hs' |]. now apply Permutation_cons_inv in Hp.
Qed.

Lemma enumeration_unique (members properties properties' : list (string * JSON.value)) :
  enumeration_of members properties -> enumeration_of members properties' ->
  properties = properties'.
Proof.
  intros (indexed & Hp & Hs & ->) (indexed' & Hp' & Hs' & ->). f_equal.
  apply sorted_Permutation_eq; [assumption ..|]. now rewrite Hp, Hp'.
Qed.

(** ** fromJSON *)






(** What [fromJSON] does with a text that is not JSON, and which texts the
    model leaves open: a fraction, an exponent, [-0], an integer beyond
    2^53 - 1. *)
Lemma fromJSON_other_texts :
  fromJSON (fun values => Normal values) "{" = Some (Throw SyntaxError)
  /\ fromJSON (fun values => Normal values) "[01]" = Some (Throw SyntaxError)
  /\ fromJSON (fun values => Normal values) "null" = Some (Throw TypeError)
  /\ fromJSON (fun values => Normal values) "[1.5]" = None
  /\ fromJSON (fun values => Normal values) "[1e3]" = None
  /\ fromJSON (fun values => Normal values) "[-0]" = None
  /\ fromJSON (fun values => Normal values) "[9007199254740992]" = None
  /\ fromJSON (fun values => Normal values) "[-9007199254740991]"
     = Some (Normal [JSON.Number (-9007199254740991)]).
Proof. repeat split; reflexivity. Qed.

(** ** getJSON *)




(** ** fromJSON after getJSON *)

(** X13. [fromJSON(proto, getJSON(v))], for a value [v] of the model: null,
    a boolean, an integer of absolute value at most 2^53 - 1, a string of
    code units below 256, an array of such values, or an object of such
    values with its properties in enumeration order.  The text parses back
    to [v], and the constructor is called with [Object.values(v)]: the
    values of the own properties of an object in enumeration order, the
    elements of an array in order, the characters of a string, nothing for
    a number or a boolean; for [null], [Object.values] throws a TypeError
    and the constructor is not called.  No text [getJSON] returns for such
    a value makes [JSON.parse] fail. *)
Theorem fromJSON_of_getJSON {Instance : Type}
    (construct : list JSON.value -> completion Instance) (v : JSON.value) :
  is_json_value v = true ->
  fromJSON construct (getJSON v)
  = Some match JSON.Object_values v with
         | Normal values => construct values
         | Throw e => Throw e
         end.
Proof.
  intros H. unfold fromJSON, getJSON. rewrite parse_stringify by exact H.
  now destruct (JSON.Object_values v).
Qed.

Lemma fromJSON_of_getJSON_witness :
  let v := JSON.Object [("1", JSON.Text "x"); ("radius", JSON.Number 10)] in
  fromJSON (fun values => Normal values) (getJSON v)
  = Some (Normal [JSON.Text "x"; JSON.Number 10]).
Proof.
  intros v. apply (fromJSON_of_getJSON (fun values => Normal values) v). reflexivity.
Defined.

(** X14. [getJSON] tells values apart: two values that JSON can write
    down and that [getJSON] writes as the same text are the same value,
    member order of objects included. *)
Theorem getJSON_injective (v v' : JSON.value) :
  is_json_value v = true -> is_json_value v' = true ->
  getJSON v = getJSON v' -> v = v'.
Proof.
  intros H H' E. apply parse_stringify in H, H'. unfold getJSON in E.
  rewrite E in H. congruence.
Qed.

Lemma getJSON_injective_witness :
  JSON.object_of [("b", JSON.Number 1); ("1", JSON.Number 2)]
  = JSON.Object [("1", JSON.Number 2); ("b", JSON.Number 1)].
Proof.
  apply (getJSON_injective (JSON.object_of [("b", JSON.Number 1); ("1", JSON.Number 2)])
           (JSON.Object [("1", JSON.Number 2); ("b", JSON.Number 1)])); reflexivity.
Defined.

(** ** fromJSON: the values of distinct keys *)

Lemma define_all_Permutation (members properties : list (string * JSON.value)) :
  List.NoDup (List.map fst (properties ++ members)) ->
  Permutation (fold_left (fun ps m => JSON.define ps (fst m) (snd m)) members properties)
    (properties ++ members).
Proof.
  revert properties. induction members as [|[key v] members IH]; intros properties H.
  - now rewrite app_nil_r.
  - cbn [fold_left fst snd].
    assert (Hnew : JSON.has_property properties key = false).
    { apply not_true_iff_false. rewrite has_property_iff. intros Hin.
      rewrite map_app in H. cbn [List.map fst] in H.
      apply NoDup_remove_2 in H. apply H, in_or_app. now left. }
    unfold JSON.define. rewrite Hnew.
    assert (Hp : Permutation (JSON.place properties key v ++ members)
                   (properties ++ (key, v) :: members)).
    { rewrite place_Permutation. cbn [app]. apply Permutation_middle. }
    rewrite IH; [exact Hp |].
    eapply Permutation_NoDup; [| exact H]. symmetry. now apply Permutation_map.
Qed.

(** X15. [fromJSON] on a text the parser reads as an object whose keys are
    distinct, array indices or not (number tokens are integers written
    without fraction or exponent, other than [-0], of absolute value at
    most 2^53 - 1; [\u] escapes denote code units below 256): the
    constructor is called once, with exactly the values of the members of
    the text, each value once; only their order can differ from the order
    of the text. *)
Theorem fromJSON_distinct_keys_pass_every_value {Instance : Type}
    (construct : list JSON.value -> completion Instance) (json : string)
    (members : list (string * JSON.value)) :
  JSON.parse_text json = JSON.Parsed (JSON.Object members) ->
  List.NoDup (List.map fst members) ->
  exists values,
    fromJSON construct json = Some (construct values)
    /\ Permutation values (List.map (fun m => JSON.build (snd m)) members).
Proof.
  intros Hp Hnd. unfold fromJSON, JSON.parse. rewrite Hp.
  cbn [JSON.build JSON.object_of JSON.Object_values]. unfold JSON.object_of.
  cbn [JSON.Object_values]. eexists. split; [reflexivity |].
  rewrite (define_all_Permutation _ []).
  - cbn [app]. now rewrite map_map.
  - cbn [app]. now rewrite map_map.
Qed.

Lemma fromJSON_distinct_keys_pass_every_value_witness :
  let json := "{" +:+ JSON.quote "b" +:+ ":1," +:+ JSON.quote "2" +:+ ":2}" in
  exists values,
    fromJSON (fun values => Normal values) json = Some (Normal values)
    /\ Permutation values [JSON.Number 1; JSON.Number 2].
Proof.
  intros json.
  apply (fromJSON_distinct_keys_pass_every_value (fun values => Normal values) json
           [("b", JSON.Number 1); ("2", JSON.Number 2)]).
  - reflexivity.
  - repeat constructor; cbn; intuition discriminate.
Defined.
